(** * sm-bot: the template expansion engine and the conditional filter

    A shallow embedding of [src/bot.py]: the function
    [interpret_template_string] (lines 34-101), the filter loop of
    [remove_channels] (lines 231-250) and the one of [preview_template]
    (lines 274-294), together with the Python library functions they call
    ([re], [str] methods, [int], [range], [itertools.product],
    [datetime.strptime]).

    Conventions.
    - A Python [str] is a [list ascii]; the character [c] stands for the code
      point [nat_of_ascii c], so the model covers templates over the first 256
      code points.  The character classes below are the Unicode ones
      restricted to that block.
    - A Python call either returns, raises or runs forever: [outcome].
    - CPython's limit on the number of digits accepted by [int] and [str]
      (4300 by default since 3.11) is not modelled. *)

From Stdlib Require Import Ascii String.
From Stdlib Require Import List ZArith Lia Bool Arith.
Import ListNotations.

Open Scope string_scope.
Open Scope list_scope.
Open Scope Z_scope.

(** ** Strings *)

Definition str : Type := list ascii.

Coercion list_ascii_of_string : string >-> list.

Definition strs (l : list string) : list str := map list_ascii_of_string l.

(** ** Outcomes of a Python call *)

Inductive exn : Type :=
| ValueError
| OverflowError
| ZeroDivisionError
| NameError
| TypeError
| SyntaxError.

Inductive outcome (A : Type) : Type :=
| Returns (a : A)
| Raises (e : exn)
| Diverges.

Arguments Returns {A} a.
Arguments Raises {A} e.
Arguments Diverges {A}.

Definition bind {A B : Type} (m : outcome A) (k : A -> outcome B) : outcome B :=
  match m with
  | Returns a => k a
  | Raises e => Raises e
  | Diverges => Diverges
  end.

Notation "x <- m ;; k" := (bind m (fun x => k))
  (at level 61, m at next level, right associativity).

Fixpoint mapM {A B : Type} (f : A -> outcome B) (l : list A) : outcome (list B) :=
  match l with
  | [] => Returns []
  | a :: l' => b <- f a ;; bs <- mapM f l' ;; Returns (b :: bs)
  end.

(** ** Character classes (Unicode, code points 0..255) *)

Definition code (c : ascii) : nat := nat_of_ascii c.

Definition between (lo hi : nat) (c : ascii) : bool :=
  ((lo <=? code c) && (code c <=? hi))%nat.

(** [\d] of [re] (Unicode category Nd) and the class [0-9]. *)
Definition is_decimal (c : ascii) : bool := between 48 57 c.

(** [\s] of [re] and the characters removed by [str.strip()]. *)
Definition is_space (c : ascii) : bool :=
  between 9 13 c || between 28 32 c || (code c =? 133)%nat || (code c =? 160)%nat.

(** [str.isdigit]: decimal digits and the superscripts 2, 3 and 1. *)
Definition isdigit_char (c : ascii) : bool :=
  is_decimal c || (code c =? 178)%nat || (code c =? 179)%nat || (code c =? 185)%nat.

Definition isupper_char (c : ascii) : bool :=
  between 65 90 c || between 192 214 c || between 216 222 c.

Definition islower_char (c : ascii) : bool :=
  between 97 122 c || (code c =? 170)%nat || (code c =? 181)%nat
  || (code c =? 186)%nat || between 223 246 c || between 248 255 c.

Definition isalpha_char (c : ascii) : bool := isupper_char c || islower_char c.

(** The class [[0-9A-Za-z:]] of the prefixed-range pattern. *)
Definition is_bound_char (c : ascii) : bool :=
  between 48 57 c || between 65 90 c || between 97 122 c || Ascii.eqb c ":".

(** The class [[^,\]]] of the prefixed-range pattern. *)
Definition is_prefix_char (c : ascii) : bool :=
  negb (Ascii.eqb c "," || Ascii.eqb c "]").

(** [.] of [re] without DOTALL. *)
Definition is_dot (c : ascii) : bool := negb (code c =? 10)%nat.

(** ** [str] methods *)

(** The characters of the class [p] removed at both ends. *)
Fixpoint lstrip_by (p : ascii -> bool) (s : str) : str :=
  match s with
  | c :: s' => if p c then lstrip_by p s' else s
  | [] => []
  end.

Definition strip_by (p : ascii -> bool) (s : str) : str :=
  rev (lstrip_by p (rev (lstrip_by p s))).

(** [s.strip()] *)
Definition strip (s : str) : str := strip_by is_space s.

Definition isdigit (s : str) : bool :=
  match s with [] => false | _ => forallb isdigit_char s end.

Definition isalpha (s : str) : bool :=
  match s with [] => false | _ => forallb isalpha_char s end.

(** True when no character is lower case and one at least is upper case. *)
Definition isupper (s : str) : bool :=
  forallb (fun c => negb (islower_char c)) s && existsb isupper_char s.

Fixpoint startswith (p s : str) : bool :=
  match p, s with
  | [], _ => true
  | a :: p', b :: s' => Ascii.eqb a b && startswith p' s'
  | _ :: _, [] => false
  end.

Definition endswith (p s : str) : bool := startswith (rev p) (rev s).

(** [s.find(sub)]: the lowest index at which [sub] occurs. *)
Fixpoint find (sub s : str) : option nat :=
  if startswith sub s then Some O
  else match s with
       | [] => None
       | _ :: s' => option_map S (find sub s')
       end.

(** [sub in s]. *)
Definition contains (sub s : str) : bool :=
  match find sub s with Some _ => true | None => false end.

(** [s.index(sub)]. *)
Definition index (s sub : str) : outcome nat :=
  match find sub s with
  | Some i => Returns i
  | None => Raises ValueError
  end.

(** [s.split(sep)] for a non-empty [sep]: [acc] is the current piece,
    reversed, and [skip] the number of characters of a separator that are
    still to be passed over. *)
Fixpoint split_go (sep : str) (acc : str) (skip : nat) (s : str) : list str :=
  match s with
  | [] => [rev acc]
  | c :: s' =>
      match skip with
      | S n => split_go sep acc n s'
      | O =>
          if startswith sep s
          then rev acc :: split_go sep [] (length sep - 1) s'
          else split_go sep (c :: acc) O s'
      end
  end.

Definition split (sep s : str) : list str := split_go sep [] O s.

(** [s.split(sep, 1)]. *)
Definition split1 (sep s : str) : list str :=
  match find sep s with
  | Some i => [firstn i s; skipn (i + length sep) s]
  | None => [s]
  end.

(** [s[1:-1]]. *)
Definition slice_1_m1 (s : str) : str := removelast (tl s).

(** [s[i:j:step]] for [0 <= i], [0 <= j]. *)
Fixpoint every (step cnt : nat) (s : str) : str :=
  match s with
  | [] => []
  | c :: s' =>
      match cnt with
      | O => c :: every step (step - 1) s'
      | S n => every step n s'
      end
  end.

Definition slice (s : str) (i j : nat) (step : Z) : outcome str :=
  if step =? 0 then Raises ValueError
  else Returns (every (Z.to_nat step) O (firstn (j - i) (skipn i s))).

(** [s.zfill(width)]. *)
Definition zfill (width : nat) (s : str) : str :=
  if (width <=? length s)%nat then s
  else
    let pad := repeat "0"%char (width - length s) in
    match s with
    | c :: s' =>
        if Ascii.eqb c "+" || Ascii.eqb c "-" then c :: pad ++ s' else pad ++ s
    | [] => pad
    end.

(** ** [str(i)] and [int(s)] *)

Definition digit_char (d : Z) : ascii := ascii_of_nat (48 + Z.to_nat d).

Fixpoint digits_of (fuel : nat) (n : Z) (acc : str) : str :=
  match fuel with
  | O => acc
  | S fuel' =>
      let acc' := digit_char (n mod 10) :: acc in
      if n <? 10 then acc' else digits_of fuel' (n / 10) acc'
  end.

Definition py_str (n : Z) : str :=
  if n <? 0 then "-"%char :: digits_of (S (Z.to_nat (Z.log2 (- n)))) (- n) []
  else digits_of (S (Z.to_nat (Z.log2 n))) n [].

Definition digit_val (c : ascii) : Z := Z.of_nat (code c) - 48.

(** The digits of a literal, with single underscores allowed between them:
    [prev_us] tells that the previous character was an underscore. *)
Fixpoint int_digits (acc : Z) (prev_us : bool) (s : str) : option Z :=
  match s with
  | [] => if prev_us then None else Some acc
  | c :: s' =>
      if is_decimal c then int_digits (10 * acc + digit_val c) false s'
      else if Ascii.eqb c "_" && negb prev_us then int_digits acc true s'
      else None
  end.

Definition int_unsigned (s : str) : option Z :=
  match s with
  | c :: _ => if is_decimal c then int_digits 0 false s else None
  | [] => None
  end.

(** The whitespace [int] skips: [int] turns the Unicode spaces above code
    point 127 into blanks and then skips the whitespace of C, so the
    separators 28 to 31 are not skipped. *)
Definition is_int_space (c : ascii) : bool :=
  between 9 13 c || (code c =? 32)%nat || (code c =? 133)%nat
  || (code c =? 160)%nat.

(** [int(s)] in base 10: surrounding whitespace, an optional sign, digits. *)
Definition py_int (s : str) : outcome Z :=
  let r :=
    match strip_by is_int_space s with
    | c :: s' =>
        if Ascii.eqb c "-" then option_map Z.opp (int_unsigned s')
        else if Ascii.eqb c "+" then int_unsigned s'
        else int_unsigned (c :: s')
    | [] => None
    end in
  match r with
  | Some n => Returns n
  | None => Raises ValueError
  end.

(** ** [range(start, stop, step)] *)

Definition range_len (start stop step : Z) : Z :=
  if 0 <? step then (if start <? stop then (stop - start - 1) / step + 1 else 0)
  else (if stop <? start then (start - stop - 1) / (- step) + 1 else 0).

Definition py_range (start stop step : Z) : outcome (list Z) :=
  if step =? 0 then Raises ValueError
  else Returns (map (fun k => start + Z.of_nat k * step)
                    (seq O (Z.to_nat (range_len start stop step)))).

(** ** [itertools.product]

    The documented equivalent: [result = [[]]], then for every pool
    [result = [x + [y] for x in result for y in pool]]. *)

Definition product_step {A : Type} (result : list (list A)) (pool : list A)
  : list (list A) :=
  flat_map (fun x => map (fun y => x ++ [y]) pool) result.

Definition product {A : Type} (pools : list (list A)) : list (list A) :=
  fold_left product_step pools [[]].

(** ** A backtracking matcher for the patterns of [re] used by the program

    Every quantifier of the source's patterns applies to a character class,
    except the optional groups.  The matcher is written in continuation
    passing style: [k] is the rest of the pattern, and the first alternative
    that lets [k] succeed wins, as in [re]. *)

Inductive regex : Type :=
| Eps
| Lit (c : ascii)
| Cls (p : ascii -> bool)
| Seq (r1 r2 : regex)
| Alt (r1 r2 : regex)
| Star (p : ascii -> bool)
| StarLazy (p : ascii -> bool)
| Opt (r : regex)
| Grp (n : nat) (r : regex)
| Bos
| Eos.

(** [p+] *)
Definition Plus (p : ascii -> bool) : regex := Seq (Cls p) (Star p).

Definition Cat (l : list regex) : regex := fold_right Seq Eps l.

Definition Word (s : str) : regex := Cat (map Lit s).

Record mstate : Type := MState {
  pos : nat;                     (* characters consumed so far *)
  rest : str;                    (* what is left of the subject *)
  caps : list (nat * str)        (* groups closed so far, latest first *)
}.

Definition cont : Type := mstate -> option mstate.

Fixpoint lookup (n : nat) (cs : list (nat * str)) : option str :=
  match cs with
  | [] => None
  | (m, s) :: cs' => if (n =? m)%nat then Some s else lookup n cs'
  end.

(** [m.group(n)]; [None] when the group did not take part in the match. *)
Definition group (n : nat) (st : mstate) : option str := lookup n (caps st).

Definition group_str (n : nat) (st : mstate) : str :=
  match group n st with Some s => s | None => [] end.

Fixpoint star_greedy (p : ascii -> bool) (k : cont) (ps : nat)
  (cs : list (nat * str)) (s : str) : option mstate :=
  match s with
  | c :: s' =>
      if p c then
        match star_greedy p k (S ps) cs s' with
        | Some x => Some x
        | None => k (MState ps s cs)
        end
      else k (MState ps s cs)
  | [] => k (MState ps [] cs)
  end.

Fixpoint star_lazy (p : ascii -> bool) (k : cont) (ps : nat)
  (cs : list (nat * str)) (s : str) : option mstate :=
  match k (MState ps s cs) with
  | Some x => Some x
  | None =>
      match s with
      | c :: s' => if p c then star_lazy p k (S ps) cs s' else None
      | [] => None
      end
  end.

Definition step_char (p : ascii -> bool) (k : cont) (st : mstate)
  : option mstate :=
  match rest st with
  | c :: s' => if p c then k (MState (S (pos st)) s' (caps st)) else None
  | [] => None
  end.

Definition close_group (n : nat) (st0 st : mstate) : mstate :=
  MState (pos st) (rest st)
         ((n, firstn (pos st - pos st0) (rest st0)) :: caps st).

Fixpoint rmatch (r : regex) (k : cont) (st : mstate) : option mstate :=
  match r with
  | Eps => k st
  | Lit c => step_char (Ascii.eqb c) k st
  | Cls p => step_char p k st
  | Seq r1 r2 => rmatch r1 (rmatch r2 k) st
  | Alt r1 r2 =>
      match rmatch r1 k st with
      | Some x => Some x
      | None => rmatch r2 k st
      end
  | Star p => star_greedy p k (pos st) (caps st) (rest st)
  | StarLazy p => star_lazy p k (pos st) (caps st) (rest st)
  | Opt r1 =>
      match rmatch r1 k st with
      | Some x => Some x
      | None => k st
      end
  | Grp n r1 => rmatch r1 (fun st' => k (close_group n st st')) st
  | Bos => if (pos st =? 0)%nat then k st else None
  | Eos =>
      match rest st with
      | [] => k st
      | [c] => if (code c =? 10)%nat then k st else None
      | _ => None
      end
  end.

(** [re.match(r, s)] *)
Definition re_match (r : regex) (s : str) : option mstate :=
  rmatch r Some (MState O s []).

(** [re.search(r, s)]: the leftmost match, with its start. *)
Fixpoint search_from (r : regex) (ps : nat) (s : str) : option (nat * mstate) :=
  match rmatch r Some (MState ps s []) with
  | Some st => Some (ps, st)
  | None =>
      match s with
      | [] => None
      | _ :: s' => search_from r (S ps) s'
      end
  end.

Definition re_search (r : regex) (s : str) : option (nat * mstate) :=
  search_from r O s.

(** [re.finditer(r, s)]: the non-overlapping matches from left to right;
    [skip] counts the characters of the last match still to be passed.  The
    patterns of the program never match the empty string. *)
Fixpoint scan (r : regex) (skip ps : nat) (s : str) : list (nat * mstate) :=
  match skip with
  | S n =>
      match s with
      | [] => []
      | _ :: s' => scan r n (S ps) s'
      end
  | O =>
      match rmatch r Some (MState ps s []) with
      | Some st =>
          (ps, st) :: match s with
                      | [] => []
                      | _ :: s' => scan r (pos st - ps - 1) (S ps) s'
                      end
      | None =>
          match s with
          | [] => []
          | _ :: s' => scan r O (S ps) s'
          end
      end
  end.

Definition finditer (r : regex) (s : str) : list (nat * mstate) := scan r O O s.

(** [re.findall(r, s)] for a pattern with one group. *)
Definition findall (r : regex) (s : str) : list str :=
  map (fun m => group_str 1 (snd m)) (finditer r s).

(** [re.sub(r, repl, s, count=1)], for a [repl] without backslash. *)
Definition sub1 (r : regex) (repl s : str) : str :=
  match re_search r s with
  | Some (start, st) => firstn start s ++ repl ++ rest st
  | None => s
  end.

(** [re.sub(r, repl, s)]: [ps] is the current position, [ms] the matches. *)
Fixpoint sub_matches (repl : str) (ps : nat) (s : str) (ms : list (nat * mstate))
  : str :=
  match ms with
  | [] => s
  | (start, st) :: ms' =>
      firstn (start - ps) s ++ repl
        ++ sub_matches repl (pos st) (skipn (pos st - ps) s) ms'
  end.

Definition sub (r : regex) (repl s : str) : str :=
  sub_matches repl O s (finditer r s).

(** ** The patterns of the program *)

(** [\[\s*(\d+)\.\.\.(\d+)(?::(\d+))?\s*\]], line 37 *)
Definition bare_pattern : regex :=
  Cat [Lit "["; Star is_space; Grp 1 (Plus is_decimal); Word "...";
       Grp 2 (Plus is_decimal);
       Opt (Seq (Lit ":") (Grp 3 (Plus is_decimal)));
       Star is_space; Lit "]"].

(** [\[([^,\]]+),\s*([0-9A-Za-z:]+)\.\.\.([0-9A-Za-z:]+)(?::(\d+))?\]],
    line 46 *)
Definition prefixed_pattern : regex :=
  Cat [Lit "["; Grp 1 (Plus is_prefix_char); Lit ","; Star is_space;
       Grp 2 (Plus is_bound_char); Word "..."; Grp 3 (Plus is_bound_char);
       Opt (Seq (Lit ":") (Grp 4 (Plus is_decimal))); Lit "]"].

(** [\{(.*?)\}], line 75 *)
Definition brace_group_pattern : regex :=
  Cat [Lit "{"; Grp 1 (StarLazy is_dot); Lit "}"].

(** [\{.*?\}], line 89 *)
Definition brace_pattern : regex :=
  Cat [Lit "{"; StarLazy is_dot; Lit "}"].

(** The pattern of line 234: [^], an opening bracket, group 1 holding a
    greedy run of [.], a closing bracket, and [$]. *)
Definition bracketed_pattern : regex :=
  Cat [Bos; Lit "["; Grp 1 (Star is_dot); Lit "]"; Eos].

(** [if (.+)], line 277 *)
Definition if_pattern : regex :=
  Cat [Word "if "; Grp 1 (Plus is_dot)].

(** [,?\s*if .+], line 279 *)
Definition if_suffix_pattern : regex :=
  Cat [Opt (Lit ","); Star is_space; Word "if "; Plus is_dot].

(** The pattern [_strptime] builds for the format [%H:%M]:
    [(?P<H>2[0-3]|[0-1]\d|\d):(?P<M>[0-5]\d|\d)]; group 1 is [H], group 2
    is [M]. *)
Definition hm_pattern : regex :=
  Cat [Grp 1 (Alt (Seq (Lit "2") (Cls (between 48 51)))
               (Alt (Seq (Cls (between 48 49)) (Cls is_decimal))
                    (Cls is_decimal)));
       Lit ":";
       Grp 2 (Alt (Seq (Cls (between 48 53)) (Cls is_decimal))
                  (Cls is_decimal))].

(** ** [datetime]

    A [datetime] of the program always has zero seconds; it is the number of
    minutes since 1900-01-01 00:00, the date [strptime] gives to a time. *)

Definition datetime : Type := Z.

(** [datetime.strptime(s, "%H:%M")] *)
Definition strptime_HM (s : str) : outcome datetime :=
  match re_match hm_pattern s with
  | None => Raises ValueError                     (* does not match format *)
  | Some st =>
      if negb (length s =? pos st)%nat then Raises ValueError  (* unconverted data *)
      else
        h <- py_int (group_str 1 st) ;;
        m <- py_int (group_str 2 st) ;;
        Returns (60 * h + m)
  end.

Definition two_digits (n : Z) : str := zfill 2 (py_str n).

(** [d.strftime("%H:%M")] *)
Definition strftime_HM (d : datetime) : str :=
  two_digits ((d / 60) mod 24) ++ ":" ++ two_digits (d mod 60).

(** Minutes from 1900-01-01 00:00 to 9999-12-31 23:59, the last minute
    of [datetime.max]. *)
Definition datetime_max : Z := 2958463 * 1440 + 1439.

(** [d + timedelta(hours=h)] for [0 <= h] *)
Definition add_hours (d : datetime) (h : Z) : outcome datetime :=
  if datetime_max <? d + 60 * h then Raises OverflowError
  else Returns (d + 60 * h).

Definition ascii_uppercase : str := "ABCDEFGHIJKLMNOPQRSTUVWXYZ".
Definition ascii_lowercase : str := "abcdefghijklmnopqrstuvwxyz".

(** ** [interpret_template_string], lines 34-101

    Each matcher of the function is a definition of its own; it answers
    [None] when control passes to the next matcher, and [Some] of the outcome
    of its [return] (or of the exception raised on the way) otherwise. *)

(** [int(raw_step) if raw_step else 1], lines 41 and 50 *)
Definition step_of (raw_step : option str) : outcome Z :=
  match raw_step with
  | Some (c :: t) => py_int (c :: t)
  | _ => Returns 1
  end.

(** Lines 37-43: pure numeric range without prefix. *)
Definition bare_numeric (format_str : str) : option (outcome (list str)) :=
  match re_match bare_pattern format_str with
  | None => None
  | Some m0 =>
      let raw_s := group_str 1 m0 in
      let raw_e := group_str 2 m0 in
      let raw_step := group 3 m0 in
      Some (start <- py_int raw_s ;;
            end_ <- py_int raw_e ;;
            step <- step_of raw_step ;;
            let width := Nat.max (length raw_s) (length raw_e) in
            r <- py_range start (end_ + 1) step ;;
            Returns (map (fun i => zfill width (py_str i)) r))
  end.

(** Lines 63-65: [while s <= e: out.append(...); s += timedelta(hours=step)]. *)
Fixpoint time_loop (fuel : nat) (prefix : str) (s e : datetime) (step : Z)
  (out : list str) : outcome (list str) :=
  match fuel with
  | O => Diverges
  | S fuel' =>
      if s <=? e then
        let out' := out ++ [prefix ++ strftime_HM s] in
        s' <- add_hours s step ;;
        time_loop fuel' prefix s' e step out'
      else Returns out
  end.

(** Lines 53-56 *)
Definition prefixed_numeric (prefix raw_s raw_e : str) (step : Z)
  : outcome (list str) :=
  start <- py_int raw_s ;;
  end_ <- py_int raw_e ;;
  let width := Nat.max (length raw_s) (length raw_e) in
  r <- py_range start (end_ + 1) step ;;
  Returns (map (fun i => prefix ++ zfill width (py_str i)) r).

(** Lines 59-66 *)
Definition prefixed_time (fuel : nat) (prefix raw_s raw_e : str) (step : Z)
  : outcome (list str) :=
  s <- strptime_HM raw_s ;;
  e <- strptime_HM raw_e ;;
  time_loop fuel prefix s e step [].

(** Lines 69-72 *)
Definition prefixed_alpha (prefix raw_s raw_e : str) (step : Z)
  : outcome (list str) :=
  let alpha := if isupper raw_s then ascii_uppercase else ascii_lowercase in
  i <- index alpha raw_s ;;
  j <- index alpha raw_e ;;
  segment <- slice alpha i (j + 1) step ;;
  Returns (map (fun c => prefix ++ [c]) segment).

(** Lines 46-72: range with prefix.  When the start bound is neither numeric,
    nor a time, nor a single letter, no branch returns and control leaves the
    [if m1:] block. *)
Definition prefixed_range (fuel : nat) (format_str : str)
  : option (outcome (list str)) :=
  match re_match prefixed_pattern format_str with
  | None => None
  | Some m1 =>
      let prefix := strip (group_str 1 m1) in
      let raw_s := group_str 2 m1 in
      let raw_e := group_str 3 m1 in
      let raw_step := group 4 m1 in
      match step_of raw_step with
      | Returns step =>
          if isdigit raw_s then Some (prefixed_numeric prefix raw_s raw_e step)
          else if contains ":" raw_s
          then Some (prefixed_time fuel prefix raw_s raw_e step)
          else if (length raw_s =? 1)%nat && isalpha raw_s
          then Some (prefixed_alpha prefix raw_s raw_e step)
          else None
      | Raises e => Some (Raises e)
      | Diverges => Some Diverges
      end
  end.

(** Lines 79-84: one brace group, [a...b]. *)
Definition axis (expr : str) : outcome (list str) :=
  match split "..." expr with
  | [a; b] =>
      if isdigit a then
        lo <- py_int a ;;
        hi <- py_int b ;;
        r <- py_range lo (hi + 1) 1 ;;
        Returns (map py_str r)
      else
        let alpha := if isupper a then ascii_uppercase else ascii_lowercase in
        i <- index alpha a ;;
        j <- index alpha b ;;
        segment <- slice alpha i (j + 1) 1 ;;
        Returns (map (fun c => [c]) segment)
  | _ => Raises ValueError
  end.

(** Lines 87-89: the brace groups of [format_str] replaced one by one, from
    the left, by the values of [combo]. *)
Definition substitute (format_str : str) (combo : list str) : str :=
  fold_left (fun tmp v => sub1 brace_pattern v tmp) combo format_str.

(** Lines 75-91: grid template. *)
Definition grid (format_str : str) : option (outcome (list str)) :=
  match findall brace_group_pattern format_str with
  | [] => None
  | braces =>
      Some (lists <- mapM axis braces ;;
            Returns (map (substitute format_str) (product lists)))
  end.

(** Lines 94-98: simple list. *)
Definition literal_list (format_str : str) : option (list str) :=
  if startswith "[" format_str && endswith "]" format_str then
    let inner := slice_1_m1 format_str in
    let parts := map strip (split "," inner) in
    if (1 <? length parts)%nat then Some parts else None
  else None.

(** The matcher whose [return] (or exception) ends the call. *)
Inductive matcher : Type :=
| BareNumeric
| PrefixedRange
| Grid
| LiteralList
| Passthrough.

Definition interpret_template_string_by (fuel : nat) (format_str : str)
  : matcher * outcome (list str) :=
  match bare_numeric format_str with
  | Some r => (BareNumeric, r)
  | None =>
  match prefixed_range fuel format_str with
  | Some r => (PrefixedRange, r)
  | None =>
  match grid format_str with
  | Some r => (Grid, r)
  | None =>
  match literal_list format_str with
  | Some parts => (LiteralList, Returns parts)
  | None => (Passthrough, Returns [format_str])
  end end end end.

Definition interpret_template_string (fuel : nat) (format_str : str)
  : outcome (list str) :=
  snd (interpret_template_string_by fuel format_str).

(** ** A fragment of Python expressions, for [eval]

    The filter hands the condition text to the builtin [eval], which sees
    every name visible at the call.  The fragment modelled here has decimal
    integer literals, names, [True], [False], [None], the unary [+], [-] and
    [not], the binary [+ - * // %], one comparison per level ([== != < <= >
    >=]), [and], [or] and parentheses.  Whatever lies outside (other syntax,
    syntax errors, arithmetic on strings or on objects) is answered [None]:
    the model says nothing about it. *)

Inductive value : Type :=
| VInt (n : Z)
| VBool (b : bool)
| VNone
| VStr (s : str)
| VObj (truth : bool).   (* any other object, with its truth value *)

(** The names visible at the call, innermost binding first: the locals of
    the handler, the module globals and the builtins. *)
Definition env : Type := list (str * value).

Fixpoint eqb_str (a b : str) : bool :=
  match a, b with
  | [], [] => true
  | x :: a', y :: b' => Ascii.eqb x y && eqb_str a' b'
  | _, _ => false
  end.

Fixpoint lookup_name (x : str) (e : env) : option value :=
  match e with
  | [] => None
  | (y, v) :: e' => if eqb_str x y then Some v else lookup_name x e'
  end.

Inductive binop : Type := Add | Sub | Mul | FloorDiv | Mod.
Inductive cmpop : Type := Eq | Ne | Lt | Le | Gt | Ge.

Inductive expr : Type :=
| Num (n : Z)
| Name (x : str)
| Const (v : value)
| Neg (a : expr)
| Pos (a : expr)
| Not (a : expr)
| Bin (op : binop) (a b : expr)
| Cmp (op : cmpop) (a b : expr)
| And (a b : expr)
| Or (a b : expr).

Inductive token : Type :=
| TNum (n : Z)
| TName (x : str)
| TTrue | TFalse | TNoneKw
| TAnd | TOr | TNot
| TPlus | TMinus | TStar | TFloorDiv | TPercent
| TCmp (op : cmpop)
| TLParen | TRParen.

Fixpoint span (p : ascii -> bool) (s : str) : str * str :=
  match s with
  | c :: s' =>
      if p c then let (a, b) := span p s' in (c :: a, b) else ([], s)
  | [] => ([], [])
  end.

Definition is_ident_start (c : ascii) : bool :=
  between 65 90 c || between 97 122 c || Ascii.eqb c "_".

Definition is_ident_char (c : ascii) : bool :=
  is_ident_start c || is_decimal c.

(** The keywords of Python that the fragment does not use. *)
Definition other_keywords : list string :=
  ["as"; "assert"; "async"; "await"; "break"; "class"; "continue"; "def";
   "del"; "elif"; "else"; "except"; "finally"; "for"; "from"; "global"; "if";
   "import"; "in"; "is"; "lambda"; "nonlocal"; "pass"; "raise"; "return";
   "try"; "while"; "with"; "yield"].

Definition word_token (x : str) : option token :=
  if eqb_str x "True" then Some TTrue
  else if eqb_str x "False" then Some TFalse
  else if eqb_str x "None" then Some TNoneKw
  else if eqb_str x "and" then Some TAnd
  else if eqb_str x "or" then Some TOr
  else if eqb_str x "not" then Some TNot
  else if existsb (fun k => eqb_str x (list_ascii_of_string k)) other_keywords
  then None
  else Some (TName x).

(** A decimal literal of the fragment: [0], or digits without a zero in
    front; it is not followed by a letter, a digit, [_] or [.]. *)
Definition number_token (d rest : str) : option token :=
  let follows_ok :=
    match rest with
    | c :: _ => negb (is_ident_char c || Ascii.eqb c ".")
    | [] => true
    end in
  let shape_ok :=
    match d with
    | c :: _ :: _ => negb (Ascii.eqb c "0")
    | _ => true
    end in
  if follows_ok && shape_ok
  then Some (TNum (fold_left (fun acc c => 10 * acc + (Z.of_nat (code c) - 48)) d 0))
  else None.

Definition symbol_token (s : str) : option (token * str) :=
  match s with
  | "/"%char :: "/"%char :: r => Some (TFloorDiv, r)
  | "="%char :: "="%char :: r => Some (TCmp Eq, r)
  | "!"%char :: "="%char :: r => Some (TCmp Ne, r)
  | "<"%char :: "="%char :: r => Some (TCmp Le, r)
  | ">"%char :: "="%char :: r => Some (TCmp Ge, r)
  | "<"%char :: r => Some (TCmp Lt, r)
  | ">"%char :: r => Some (TCmp Gt, r)
  | "+"%char :: r => Some (TPlus, r)
  | "-"%char :: r => Some (TMinus, r)
  | "*"%char :: r => Some (TStar, r)
  | "%"%char :: r => Some (TPercent, r)
  | "("%char :: r => Some (TLParen, r)
  | ")"%char :: r => Some (TRParen, r)
  | _ => None
  end.

Fixpoint tokenize (fuel : nat) (s : str) : option (list token) :=
  match fuel with
  | O => None
  | S fuel' =>
      match s with
      | [] => Some []
      | c :: s' =>
          if Ascii.eqb c " " || (code c =? 9)%nat then tokenize fuel' s'
          else if is_decimal c then
            let (d, r) := span is_decimal s in
            match number_token d r, tokenize fuel' r with
            | Some t, Some ts => Some (t :: ts)
            | _, _ => None
            end
          else if is_ident_start c then
            let (x, r) := span is_ident_char s in
            match word_token x, tokenize fuel' r with
            | Some t, Some ts => Some (t :: ts)
            | _, _ => None
            end
          else
            match symbol_token s with
            | Some (t, r) =>
                match tokenize fuel' r with
                | Some ts => Some (t :: ts)
                | None => None
                end
            | None => None
            end
      end
  end.

Definition parsed : Type := option (expr * list token).

Definition wrap (f : expr -> expr) (r : parsed) : parsed :=
  match r with
  | Some (e, ts) => Some (f e, ts)
  | None => None
  end.

(** Recursive descent, one function per level of Python's grammar:
    [or_test], [and_test], [not_test], [comparison], [arith_expr], [term],
    [factor], [atom]. *)
Fixpoint p_or (n : nat) (ts : list token) : parsed :=
  match n with
  | O => None
  | S n' =>
      match p_and n' ts with
      | Some (a, TOr :: r) => wrap (Or a) (p_or n' r)
      | other => other
      end
  end
with p_and (n : nat) (ts : list token) : parsed :=
  match n with
  | O => None
  | S n' =>
      match p_not n' ts with
      | Some (a, TAnd :: r) => wrap (And a) (p_and n' r)
      | other => other
      end
  end
with p_not (n : nat) (ts : list token) : parsed :=
  match n with
  | O => None
  | S n' =>
      match ts with
      | TNot :: r => wrap Not (p_not n' r)
      | _ => p_cmp n' ts
      end
  end
with p_cmp (n : nat) (ts : list token) : parsed :=
  match n with
  | O => None
  | S n' =>
      match p_arith n' ts with
      | Some (a, TCmp op :: r) =>
          match p_arith n' r with
          | Some (_, TCmp _ :: _) => None          (* chained comparison *)
          | Some (b, r') => Some (Cmp op a b, r')
          | None => None
          end
      | other => other
      end
  end
with p_arith (n : nat) (ts : list token) : parsed :=
  match n with
  | O => None
  | S n' =>
      match p_term n' ts with
      | Some (a, r) => p_arith_tail n' a r
      | None => None
      end
  end
with p_arith_tail (n : nat) (acc : expr) (ts : list token) : parsed :=
  match n with
  | O => None
  | S n' =>
      match ts with
      | TPlus :: r =>
          match p_term n' r with
          | Some (b, r') => p_arith_tail n' (Bin Add acc b) r'
          | None => None
          end
      | TMinus :: r =>
          match p_term n' r with
          | Some (b, r') => p_arith_tail n' (Bin Sub acc b) r'
          | None => None
          end
      | _ => Some (acc, ts)
      end
  end
with p_term (n : nat) (ts : list token) : parsed :=
  match n with
  | O => None
  | S n' =>
      match p_factor n' ts with
      | Some (a, r) => p_term_tail n' a r
      | None => None
      end
  end
with p_term_tail (n : nat) (acc : expr) (ts : list token) : parsed :=
  match n with
  | O => None
  | S n' =>
      match ts with
      | TStar :: r =>
          match p_factor n' r with
          | Some (b, r') => p_term_tail n' (Bin Mul acc b) r'
          | None => None
          end
      | TFloorDiv :: r =>
          match p_factor n' r with
          | Some (b, r') => p_term_tail n' (Bin FloorDiv acc b) r'
          | None => None
          end
      | TPercent :: r =>
          match p_factor n' r with
          | Some (b, r') => p_term_tail n' (Bin Mod acc b) r'
          | None => None
          end
      | _ => Some (acc, ts)
      end
  end
with p_factor (n : nat) (ts : list token) : parsed :=
  match n with
  | O => None
  | S n' =>
      match ts with
      | TMinus :: r => wrap Neg (p_factor n' r)
      | TPlus :: r => wrap Pos (p_factor n' r)
      | _ => p_atom n' ts
      end
  end
with p_atom (n : nat) (ts : list token) : parsed :=
  match n with
  | O => None
  | S n' =>
      match ts with
      | TNum z :: r => Some (Num z, r)
      | TName x :: r => Some (Name x, r)
      | TTrue :: r => Some (Const (VBool true), r)
      | TFalse :: r => Some (Const (VBool false), r)
      | TNoneKw :: r => Some (Const VNone, r)
      | TLParen :: r =>
          match p_or n' r with
          | Some (e, TRParen :: r') => Some (e, r')
          | _ => None
          end
      | _ => None
      end
  end.

(** The expression a condition text denotes, when it is in the fragment. *)
Definition parse_condition (text : str) : option expr :=
  match tokenize (S (length text)) text with
  | Some ts =>
      match p_or (10 * length ts + 10) ts with
      | Some (e, []) => Some e
      | _ => None
      end
  | None => None
  end.

(** The truth value of an object, as [if] and [not] see it. *)
Definition truthy (v : value) : bool :=
  match v with
  | VInt n => negb (n =? 0)
  | VBool b => b
  | VNone => false
  | VStr s => match s with [] => false | _ => true end
  | VObj t => t
  end.

(** Integers and booleans take part in arithmetic. *)
Definition as_int (v : value) : option Z :=
  match v with
  | VInt n => Some n
  | VBool b => Some (if b then 1 else 0)
  | _ => None
  end.

Definition opaque_value (v : value) : bool :=
  match v with
  | VStr _ | VObj _ => true
  | _ => false
  end.

(** The answer of the model: [None] when it says nothing. *)
Definition answer : Type := option (outcome value).

Definition arith (op : binop) (a b : value) : answer :=
  match as_int a, as_int b with
  | Some x, Some y =>
      match op with
      | Add => Some (Returns (VInt (x + y)))
      | Sub => Some (Returns (VInt (x - y)))
      | Mul => Some (Returns (VInt (x * y)))
      | FloorDiv =>
          if y =? 0 then Some (Raises ZeroDivisionError)
          else Some (Returns (VInt (x / y)))
      | Mod =>
          if y =? 0 then Some (Raises ZeroDivisionError)
          else Some (Returns (VInt (x mod y)))
      end
  | _, _ =>
      if opaque_value a || opaque_value b then None
      else Some (Raises TypeError)
  end.

Definition compare_int (op : cmpop) (x y : Z) : bool :=
  match op with
  | Eq => x =? y
  | Ne => negb (x =? y)
  | Lt => x <? y
  | Le => x <=? y
  | Gt => y <? x
  | Ge => y <=? x
  end.

Definition compare (op : cmpop) (a b : value) : answer :=
  match a, b with
  | VObj _, _ | _, VObj _ => None
  | _, _ =>
      match as_int a, as_int b with
      | Some x, Some y => Some (Returns (VBool (compare_int op x y)))
      | _, _ =>
          match op with
          | Eq | Ne =>
              let same :=
                match a, b with
                | VNone, VNone => true
                | VStr s, VStr t => eqb_str s t
                | _, _ => false
                end in
              Some (Returns (VBool (match op with Eq => same | _ => negb same end)))
          | _ =>
              match a, b with
              | VStr _, VStr _ => None
              | _, _ => Some (Raises TypeError)
              end
          end
      end
  end.

Definition negate (positive : bool) (a : value) : answer :=
  match as_int a with
  | Some x => Some (Returns (VInt (if positive then x else - x)))
  | None =>
      match a with
      | VObj _ => None
      | _ => Some (Raises TypeError)
      end
  end.

(** Evaluation, operands from left to right. *)
Fixpoint eval_expr (e : env) (x : expr) : answer :=
  match x with
  | Num n => Some (Returns (VInt n))
  | Name y =>
      match lookup_name y e with
      | Some v => Some (Returns v)
      | None => Some (Raises NameError)
      end
  | Const v => Some (Returns v)
  | Neg a =>
      match eval_expr e a with
      | Some (Returns v) => negate false v
      | other => other
      end
  | Pos a =>
      match eval_expr e a with
      | Some (Returns v) => negate true v
      | other => other
      end
  | Not a =>
      match eval_expr e a with
      | Some (Returns v) => Some (Returns (VBool (negb (truthy v))))
      | other => other
      end
  | Bin op a b =>
      match eval_expr e a with
      | Some (Returns va) =>
          match eval_expr e b with
          | Some (Returns vb) => arith op va vb
          | other => other
          end
      | other => other
      end
  | Cmp op a b =>
      match eval_expr e a with
      | Some (Returns va) =>
          match eval_expr e b with
          | Some (Returns vb) => compare op va vb
          | other => other
          end
      | other => other
      end
  | And a b =>
      match eval_expr e a with
      | Some (Returns va) => if truthy va then eval_expr e b else Some (Returns va)
      | other => other
      end
  | Or a b =>
      match eval_expr e a with
      | Some (Returns va) => if truthy va then Some (Returns va) else eval_expr e b
      | other => other
      end
  end.

(** [eval(text)] on the fragment. *)
Definition py_eval (e : env) (text : str) : answer :=
  match parse_condition text with
  | Some x => eval_expr e x
  | None => None
  end.

(** An evaluator: what [eval] answers to every text in every environment. *)
Definition evaluator : Type := env -> str -> outcome value.

(** An evaluator that agrees with the fragment wherever the model speaks. *)
Definition extends (ev : evaluator) : Prop :=
  forall e text o, py_eval e text = Some o -> ev e text = o.

(** The fragment, made total: outside it, a [SyntaxError]. *)
Definition fragment_eval : evaluator :=
  fun e text =>
    match py_eval e text with
    | Some o => o
    | None => Raises SyntaxError
    end.

(** ** The filter of [remove_channels], lines 231-251

    [ambient] holds the names visible in the handler when the loop starts;
    the loop adds [i] and [name].  The list [deleted], which the body of the
    loop grows, is not part of the model. *)

Definition loop_env (var : string) (i : Z) (name : str) (ambient : env) : env :=
  (list_ascii_of_string "i", VInt i)
    :: (list_ascii_of_string var, VStr name) :: ambient.

(** Lines 244-250: the elements for which control reaches line 251, with
    their ordinal. *)
Fixpoint remove_loop (ev : evaluator) (ambient : env) (condition : option str)
  (i : Z) (names : list str) : outcome (list (Z * str)) :=
  match names with
  | [] => Returns []
  | name :: names' =>
      match condition with
      | Some (c :: t) =>
          match ev (loop_env "name" i name ambient) (c :: t) with
          | Returns v =>
              if truthy v then
                rest <- remove_loop ev ambient condition (i + 1) names' ;;
                Returns ((i, name) :: rest)
              else remove_loop ev ambient condition (i + 1) names'
          | Raises _ => remove_loop ev ambient condition (i + 1) names'
          | Diverges => Diverges
          end
      | _ =>
          rest <- remove_loop ev ambient condition (i + 1) names' ;;
          Returns ((i, name) :: rest)
      end
  end.

(** Lines 232-241: the template and the condition of a [template] argument. *)
Definition split_condition (template : str) : str * option str :=
  let tpl := strip template in
  match re_match bracketed_pattern tpl with
  | Some m =>
      let inner := group_str 1 m in
      match split1 ", if " inner with
      | [range_part; cond] => ("[" ++ strip range_part ++ "]", Some (strip cond))
      | range_part :: _ => ("[" ++ strip range_part ++ "]", None)
      | [] => (tpl, None)
      end
  | None => (tpl, None)
  end.

(** Lines 232-251: the names [remove_channels] looks up, in order. *)
Definition remove_targets (ev : evaluator) (fuel : nat) (ambient : env)
  (template : str) : outcome (list str) :=
  let (tpl, condition) := split_condition template in
  names <- interpret_template_string fuel tpl ;;
  kept <- remove_loop ev ambient condition 1 names ;;
  Returns (map snd kept).

(** ** [preview_template], lines 274-294 *)

(** What the handler answers. *)
Inductive reply : Type :=
| NoResults                      (* line 287 *)
| PreviewOf (preview : list str) (* lines 289-292, before the cut at 25 *)
| ErrorReply (e : exn).          (* line 294 *)

(** Lines 280-282: [if expr and eval(expr): preview.append(nm)]. *)
Fixpoint preview_loop (ev : evaluator) (ambient : env) (expr : option str)
  (i : Z) (names : list str) : outcome (list str) :=
  match names with
  | [] => Returns []
  | nm :: names' =>
      match expr with
      | Some (c :: t) =>
          v <- ev (loop_env "nm" i nm ambient) (c :: t) ;;
          rest <- preview_loop ev ambient expr (i + 1) names' ;;
          Returns (if truthy v then nm :: rest else rest)
      | _ => preview_loop ev ambient expr (i + 1) names'
      end
  end.

(** Lines 276-284 *)
Definition preview_list (ev : evaluator) (fuel : nat) (ambient : env)
  (template : str) : outcome (list str) :=
  if contains "if" template then
    let expr :=
      match re_search if_pattern template with
      | Some (_, m) => Some (strip (group_str 1 m))
      | None => None
      end in
    let base := strip (sub if_suffix_pattern [] template) in
    names <- interpret_template_string fuel base ;;
    preview_loop ev ambient expr 1 names
  else interpret_template_string fuel template.

Definition preview_template (ev : evaluator) (fuel : nat) (ambient : env)
  (template : str) : outcome reply :=
  match preview_list ev fuel ambient template with
  | Returns [] => Returns NoResults
  | Returns preview => Returns (PreviewOf preview)
  | Raises e => Returns (ErrorReply e)
  | Diverges => Diverges
  end.





(** ** [clone_category], lines 332-341 *)

(** The pattern of line 333: an opening bracket, one or more characters
    other than a closing bracket, a closing bracket. *)
Definition bracket_pattern : regex :=
  Cat [Lit "["; Plus (fun c => negb (Ascii.eqb c "]")); Lit "]"].

(** The names of the categories to create: the bracketed template of
    [target] expanded, with the text before and after it around each base. *)
Definition clone_targets (fuel : nat) (target : str) : outcome (list str) :=
  match re_search bracket_pattern target with
  | Some (start, m) =>
      let tpl := firstn (pos m - start) (skipn start target) in  (* m.group(0) *)
      let prefix := firstn start target in
      let suffix := rest m in                           (* target[m.end():] *)
      bases <- interpret_template_string fuel tpl ;;
      Returns (map (fun b => prefix ++ b ++ suffix) bases)
  | None => Returns [target]
  end.

(** ** [parse_permissions], lines 103-137

    The guild is what the function asks it: its roles, in the order of
    [guild.roles], and which members [fetch_member] finds (the call raises
    for the others, and the function catches that). *)

(** Line 24 *)
Definition PERMISSION_MAP : list (string * string) :=
  [("view", "view_channel"); ("send", "send_messages"); ("connect", "connect");
   ("speak", "speak"); ("manage", "manage_channels");
   ("read", "read_message_history"); ("attach", "attach_files")].

(** [PERMISSION_MAP.get(key)] *)
Fixpoint map_get (key : str) (m : list (string * string)) : option string :=
  match m with
  | [] => None
  | (k, v) :: m' => if eqb_str key (list_ascii_of_string k) then Some v
                    else map_get key m'
  end.

(** [s.lower()] on code points 0..255 *)
Definition lower_char (c : ascii) : ascii :=
  if isupper_char c then ascii_of_nat (code c + 32) else c.

Definition lower (s : str) : str := map lower_char s.

Record guild : Type := Guild {
  roles : list (Z * str);          (* id and name of each role *)
  fetch_member : Z -> bool         (* does [fetch_member(id)] find a member *)
}.

(** The objects permissions are given to. *)
Inductive target : Type :=
| Role (id : Z)
| Member (id : Z).

Definition eqb_target (a b : target) : bool :=
  match a, b with
  | Role x, Role y => x =? y
  | Member x, Member y => x =? y
  | _, _ => false
  end.

(** [discord.utils.get(guild.roles, name=name)]: the first role so named. *)
Fixpoint role_by_name (name : str) (rs : list (Z * str)) : option target :=
  match rs with
  | [] => None
  | (id, n) :: rs' => if eqb_str n name then Some (Role id) else role_by_name name rs'
  end.

(** [discord.utils.get(guild.roles, id=id)] *)
Fixpoint role_by_id (id : Z) (rs : list (Z * str)) : option target :=
  match rs with
  | [] => None
  | (i, _) :: rs' => if i =? id then Some (Role i) else role_by_id id rs'
  end.

(** Lines 119-132: the object an entry names, if any. *)
Definition resolve_target (g : guild) (targ : str) : outcome (option target) :=
  if startswith "@" targ then
    let name := tl targ in
    match role_by_name name (roles g) with
    | Some obj => Returns (Some obj)
    | None =>
        if isdigit name then
          id <- py_int name ;;
          Returns (role_by_id id (roles g))
        else Returns None
    end
  else if isdigit targ then
    match py_int targ with
    | Returns id => Returns (if fetch_member g id then Some (Member id) else None)
    | _ => Returns None               (* the bare [except] of line 131 *)
    end
  else Returns None.

(** Lines 107-135 for one entry: the overwrite it adds, if any.  The
    overwrite allows the one attribute [attr] and denies nothing. *)
Definition parse_entry (g : guild) (entry : str)
  : outcome (option (target * string)) :=
  if negb (contains ":" entry) then Returns None
  else
    match split1 ":" entry with
    | [target_raw; key_raw] =>
        let perm_key := lower (strip key_raw) in
        match map_get perm_key PERMISSION_MAP with
        | None => Returns None
        | Some attr =>
            obj <- resolve_target g (strip target_raw) ;;
            match obj with
            | Some o => Returns (Some (o, attr))
            | None => Returns None
            end
        end
    | _ => Returns None
    end.

(** [overwrites[obj] = ...]: a dict keeps the place of a key it has. *)
Fixpoint dict_set (o : target) (attr : string) (d : list (target * string))
  : list (target * string) :=
  match d with
  | [] => [(o, attr)]
  | (k, v) :: d' =>
      if eqb_target k o then (k, attr) :: d' else (k, v) :: dict_set o attr d'
  end.

Fixpoint dict_get (o : target) (d : list (target * string)) : option string :=
  match d with
  | [] => None
  | (k, v) :: d' => if eqb_target k o then Some v else dict_get o d'
  end.

(** Lines 105-137: the loop over the entries. *)
Fixpoint parse_entries (g : guild) (entries : list str)
  (overwrites : list (target * string)) : outcome (list (target * string)) :=
  match entries with
  | [] => Returns overwrites
  | entry :: entries' =>
      r <- parse_entry g entry ;;
      match r with
      | Some (o, attr) => parse_entries g entries' (dict_set o attr overwrites)
      | None => parse_entries g entries' overwrites
      end
  end.

Definition parse_permissions (g : guild) (perm_string : str)
  : outcome (list (target * string)) :=
  parse_entries g (split "," perm_string) [].

(** ** The surface syntax of templates

    The shapes of section 6 of the specification, written as the strings
    they denote; these definitions describe inputs, they are not part of the
    program. *)

(** A non-empty run of decimal digits. *)
Definition is_number (d : str) : bool :=
  match d with [] => false | _ => forallb is_decimal d end.

(** A non-empty run of characters allowed in a bound of a prefixed range. *)
Definition is_bound (b : str) : bool :=
  match b with [] => false | _ => forallb is_bound_char b end.

(** A non-empty prefix without comma or closing bracket. *)
Definition is_prefix (p : str) : bool :=
  match p with [] => false | _ => forallb is_prefix_char p end.

(** The optional [:step] *)
Definition step_suffix (raw_step : option str) : str :=
  match raw_step with
  | Some d => ":" ++ d
  | None => []
  end.

Definition is_step (raw_step : option str) : bool :=
  match raw_step with
  | Some d => is_number d
  | None => true
  end.

(** [[start...end]] and [[start...end:step]], with optional blanks inside
    the brackets. *)
Definition bare_template (ws1 raw_s raw_e : str) (raw_step : option str)
  (ws2 : str) : str :=
  "[" ++ ws1 ++ raw_s ++ "..." ++ raw_e ++ step_suffix raw_step ++ ws2 ++ "]".

Definition bare_ok (ws1 raw_s raw_e : str) (raw_step : option str) (ws2 : str)
  : bool :=
  forallb is_space ws1 && is_number raw_s && is_number raw_e
  && is_step raw_step && forallb is_space ws2.

(** [[prefix, start...end]] and [[prefix, start...end:step]] *)
Definition prefixed_template (prefix ws raw_s raw_e : str)
  (raw_step : option str) : str :=
  "[" ++ prefix ++ "," ++ ws ++ raw_s ++ "..." ++ raw_e
      ++ step_suffix raw_step ++ "]".

Definition prefixed_ok (prefix ws raw_s raw_e : str) (raw_step : option str)
  : bool :=
  is_prefix prefix && forallb is_space ws && is_bound raw_s && is_bound raw_e
  && is_step raw_step.

(** The value a run of decimal digits denotes. *)
Definition number_value (d : str) : Z :=
  fold_left (fun acc c => 10 * acc + digit_val c) d 0.

(** The value of the step token, 1 when there is none. *)
Definition step_value (raw_step : option str) : Z :=
  match raw_step with
  | Some d => number_value d
  | None => 1
  end.

(** A range template, by its parts. *)
Inductive range_shape : Type :=
| Bare (ws1 raw_s raw_e : str) (raw_step : option str) (ws2 : str)
| Prefixed (prefix ws raw_s raw_e : str) (raw_step : option str).

Definition render (sh : range_shape) : str :=
  match sh with
  | Bare ws1 raw_s raw_e raw_step ws2 =>
      bare_template ws1 raw_s raw_e raw_step ws2
  | Prefixed prefix ws raw_s raw_e raw_step =>
      prefixed_template prefix ws raw_s raw_e raw_step
  end.

Definition well_formed (sh : range_shape) : bool :=
  match sh with
  | Bare ws1 raw_s raw_e raw_step ws2 => bare_ok ws1 raw_s raw_e raw_step ws2
  | Prefixed prefix ws raw_s raw_e raw_step =>
      prefixed_ok prefix ws raw_s raw_e raw_step
  end.

Definition start_token (sh : range_shape) : str :=
  match sh with
  | Bare _ raw_s _ _ _ => raw_s
  | Prefixed _ _ raw_s _ _ => raw_s
  end.

Definition end_token (sh : range_shape) : str :=
  match sh with
  | Bare _ _ raw_e _ _ => raw_e
  | Prefixed _ _ _ raw_e _ => raw_e
  end.


(** The text put in front of every element: nothing for a bare range, the
    prefix without its surrounding blanks otherwise. *)
Definition shape_prefix (sh : range_shape) : str :=
  match sh with
  | Bare _ _ _ _ _ => []
  | Prefixed prefix _ _ _ _ => strip prefix
  end.

(** The sub-variants of a range, chosen by the shape of the start bound in
    the order of lines 53, 59 and 69. *)
Inductive bound_kind : Type := Numeric | Time | Alpha.

Definition start_kind (raw_s : str) : option bound_kind :=
  if isdigit raw_s then Some Numeric
  else if contains ":" raw_s then Some Time
  else if (length raw_s =? 1)%nat && isalpha raw_s then Some Alpha
  else None.

Definition kind_of (sh : range_shape) : option bound_kind :=
  match sh with
  | Bare _ _ _ _ _ => Some Numeric
  | Prefixed _ _ raw_s _ _ => start_kind raw_s
  end.

(** The characters a pattern can consume all satisfy [P]. *)
Fixpoint accepts_only (P : ascii -> bool) (r : regex) : Prop :=
  match r with
  | Eps | Bos | Eos => True
  | Lit c => P c = true
  | Cls p | Star p | StarLazy p => forall c, p c = true -> P c = true
  | Seq r1 r2 | Alt r1 r2 => accepts_only P r1 /\ accepts_only P r2
  | Opt r1 | Grp _ r1 => accepts_only P r1
  end.



(** Literal text of a grid template: no opening brace. *)
Definition no_open (lit : str) : bool :=
  forallb (fun c => negb (Ascii.eqb c "{")) lit.

(** The inside of a brace group: no closing brace and no line feed. *)
Definition inside_braces (g : str) : bool :=
  forallb (fun c => is_dot c && negb (Ascii.eqb c "}")) g.




(** ** Notions used to state and prove the properties *)

(** The subject [s] offers no further character to a repetition of [p]. *)
Definition stops (p : ascii -> bool) (s : str) : Prop :=
  match s with
  | [] => True
  | c :: _ => p c = false
  end.

(** A number written with zeros in front, [width] characters in all. *)
Definition padded (width : nat) (i : Z) : str :=
  repeat "0"%char (width - length (py_str i)) ++ py_str i.

(** An element that is the prefix followed by a number of exactly [width]
    digits. *)
Definition padded_element (pre : str) (width : nat) (x : str) : Prop :=
  exists i, x = pre ++ padded width i
            /\ length (padded width i) = width
            /\ forallb is_decimal (padded width i) = true
            /\ number_value (padded width i) = i.

(** [parses r w cs cs']: the pattern [r] can consume exactly the word [w],
    taking the closed groups from [cs] to [cs'].  This forgets the priorities
    of the matcher: it tells what a match looks like, not which one wins. *)
Fixpoint parses (r : regex) (w : str) (cs cs' : list (nat * str)) : Prop :=
  match r with
  | Eps | Bos | Eos => w = [] /\ cs' = cs
  | Lit c => w = [c] /\ cs' = cs
  | Cls p => exists c, w = [c] /\ p c = true /\ cs' = cs
  | Seq r1 r2 =>
      exists w1 w2 cm,
        w = w1 ++ w2 /\ parses r1 w1 cs cm /\ parses r2 w2 cm cs'
  | Alt r1 r2 => parses r1 w cs cs' \/ parses r2 w cs cs'
  | Star p | StarLazy p => forallb p w = true /\ cs' = cs
  | Opt r1 => (w = [] /\ cs' = cs) \/ parses r1 w cs cs'
  | Grp n r1 => exists cm, parses r1 w cs cm /\ cs' = (n, w) :: cm
  end.



(** [sep.join(items)] *)
Fixpoint join (sep : str) (items : list str) : str :=
  match items with
  | [] => []
  | [x] => x
  | x :: rest => x ++ sep ++ join sep rest
  end.

(** Every word the pattern parses holds the character [c]. *)
Fixpoint requires (c : ascii) (r : regex) : bool :=
  match r with
  | Lit c' => Ascii.eqb c c'
  | Seq r1 r2 => requires c r1 || requires c r2
  | Alt r1 r2 => requires c r1 && requires c r2
  | Grp _ r1 => requires c r1
  | _ => false
  end.

(** A string without the character [c]. *)
Definition lacks (c : ascii) (s : str) : bool :=
  forallb (fun x => negb (Ascii.eqb x c)) s.



(** An item of a literal list: no comma, no dot, no opening brace. *)
Definition plain_item (x : str) : bool :=
  lacks "," x && lacks "." x && no_open x.

(** The number of hours of a time range: the points [s], [s + 60], ... up to
    [e], in minutes. *)
Definition hour_count (s e : Z) : nat :=
  if s <=? e then Z.to_nat ((e - s) / 60 + 1) else O.

(** An object of the guild: one of its roles, or a member it finds. *)
Definition known_target (g : guild) (o : target) : Prop :=
  match o with
  | Role id => In id (map fst (roles g))
  | Member id => fetch_member g id = true
  end.

(** One of the attributes of [PERMISSION_MAP]. *)
Definition known_attribute (attr : string) : Prop :=
  In attr (map snd PERMISSION_MAP).

(** A guild with two roles and one member, to run the functions on. *)
Definition two_role_guild : guild :=
  Guild [(7, list_ascii_of_string "mods"); (9, list_ascii_of_string "staff")]
        (fun id => id =? 42).

(** The letter at place [i], from 0, of [ascii_uppercase] or of
    [ascii_lowercase]. *)
Definition letter (upper : bool) (i : nat) : ascii :=
  ascii_of_nat ((if upper then 65 else 97) + i).

(** * Properties *)

(** ** Characters and strings *)

Ltac each_char c :=
  destruct c as [[] [] [] [] [] [] [] []]; vm_compute; intros;
  try reflexivity; try discriminate; try congruence.

Lemma decimal_not_space (c : ascii) : is_decimal c = true -> is_space c = false.
Proof. each_char c. Qed.

Lemma decimal_is_bound_char (c : ascii) :
  is_decimal c = true -> is_bound_char c = true.
Proof. each_char c. Qed.

Lemma bound_char_not_space (c : ascii) :
  is_bound_char c = true -> is_space c = false.
Proof. each_char c. Qed.

Lemma eqb_char_eq (a b : ascii) : Ascii.eqb a b = true -> a = b.
Proof. apply Ascii.eqb_eq. Qed.

Lemma forallb_imp {A : Type} (p q : A -> bool) (l : list A) :
  (forall a, p a = true -> q a = true) ->
  forallb p l = true -> forallb q l = true.
Proof.
  intros Hpq Hl. rewrite forallb_forall in *. auto.
Qed.

Lemma is_number_cons (d : str) :
  is_number d = true ->
  exists c d', d = c :: d' /\ is_decimal c = true /\ forallb is_decimal d' = true.
Proof.
  destruct d as [|c d']; simpl; [discriminate|].
  intros H. apply andb_true_iff in H. exists c, d'. tauto.
Qed.

Lemma is_number_forallb (d : str) :
  is_number d = true -> forallb is_decimal d = true.
Proof. destruct d; [discriminate|auto]. Qed.

Lemma is_bound_cons (b : str) :
  is_bound b = true ->
  exists c b', b = c :: b' /\ is_bound_char c = true
               /\ forallb is_bound_char b' = true.
Proof.
  destruct b as [|c b']; simpl; [discriminate|].
  intros H. apply andb_true_iff in H. exists c, b'. tauto.
Qed.

Lemma is_prefix_cons (p : str) :
  is_prefix p = true ->
  exists c p', p = c :: p' /\ is_prefix_char c = true
               /\ forallb is_prefix_char p' = true.
Proof.
  destruct p as [|c p']; simpl; [discriminate|].
  intros H. apply andb_true_iff in H. exists c, p'. tauto.
Qed.

(** ** The matcher: what a successful run looks like from the front *)

Lemma star_greedy_run (p : ascii -> bool) (k : cont) (w s : str) :
  forall ps cs x,
    forallb p w = true ->
    stops p s ->
    k (MState (ps + length w) s cs) = Some x ->
    star_greedy p k ps cs (w ++ s) = Some x.
Proof.
  induction w as [|c w IH]; intros ps cs x Hw Hs Hk; simpl in *.
  - rewrite Nat.add_0_r in Hk.
    destruct s as [|c s]; simpl in *; [assumption|].
    rewrite Hs. assumption.
  - apply andb_true_iff in Hw. destruct Hw as [Hc Hw].
    rewrite Hc. rewrite (IH (S ps) cs x); auto.
    rewrite <- Hk. f_equal. f_equal. lia.
Qed.

Lemma rmatch_Star_run (p : ascii -> bool) (k : cont) (w s : str) ps cs x :
  forallb p w = true ->
  stops p s ->
  k (MState (ps + length w) s cs) = Some x ->
  rmatch (Star p) k (MState ps (w ++ s) cs) = Some x.
Proof. intros. simpl. apply star_greedy_run; assumption. Qed.

Lemma rmatch_Plus_run (p : ascii -> bool) (k : cont) (c : ascii) (w s : str)
  ps cs x :
  p c = true ->
  forallb p w = true ->
  stops p s ->
  k (MState (ps + length (c :: w)) s cs) = Some x ->
  rmatch (Plus p) k (MState ps ((c :: w) ++ s) cs) = Some x.
Proof.
  intros Hc Hw Hs Hk. unfold Plus. simpl. unfold step_char. simpl.
  rewrite Hc. apply star_greedy_run; auto.
  rewrite <- Hk. f_equal. f_equal. simpl. lia.
Qed.

Lemma firstn_exact (w s : str) (a b : nat) :
  b = (a + length w)%nat -> firstn (b - a) (w ++ s) = w.
Proof.
  intros ->. replace (a + length w - a)%nat with (length w + 0)%nat by lia.
  rewrite firstn_app_2. simpl. apply app_nil_r.
Qed.

Lemma rmatch_Grp_Plus_run (n : nat) (p : ascii -> bool) (k : cont)
  (c : ascii) (w s : str) ps cs x :
  p c = true ->
  forallb p w = true ->
  stops p s ->
  k (MState (ps + length (c :: w)) s ((n, c :: w) :: cs)) = Some x ->
  rmatch (Grp n (Plus p)) k (MState ps ((c :: w) ++ s) cs) = Some x.
Proof.
  intros Hc Hw Hs Hk.
  change (rmatch (Grp n (Plus p)) k (MState ps ((c :: w) ++ s) cs))
    with (rmatch (Plus p)
            (fun st' => k (close_group n (MState ps ((c :: w) ++ s) cs) st'))
            (MState ps ((c :: w) ++ s) cs)).
  apply rmatch_Plus_run; auto.
  unfold close_group. cbn [pos rest caps].
  rewrite firstn_exact by reflexivity. assumption.
Qed.

Lemma rmatch_Lit_hit (c : ascii) (k : cont) (s : str) ps cs :
  rmatch (Lit c) k (MState ps (c :: s) cs) = k (MState (S ps) s cs).
Proof. simpl. unfold step_char. simpl. rewrite Ascii.eqb_refl. reflexivity. Qed.

Lemma rmatch_Lit_miss (c : ascii) (k : cont) (s : str) ps cs :
  match s with [] => True | c' :: _ => c <> c' end ->
  rmatch (Lit c) k (MState ps s cs) = None.
Proof.
  intros H. simpl. unfold step_char. simpl. destruct s as [|c' s]; auto.
  destruct (Ascii.eqb_spec c c'); [contradiction|reflexivity].
Qed.

Lemma rmatch_Word_hit (w : str) (k : cont) (s : str) :
  forall ps cs,
    rmatch (Word w) k (MState ps (w ++ s) cs) = k (MState (ps + length w) s cs).
Proof.
  unfold Word, Cat.
  induction w as [|c w IH]; intros ps cs; simpl map; simpl fold_right; simpl app.
  - simpl. rewrite Nat.add_0_r. reflexivity.
  - change (rmatch (Seq (Lit c) (fold_right Seq Eps (map Lit w))) k
              (MState ps (c :: w ++ s) cs))
      with (rmatch (Lit c) (rmatch (fold_right Seq Eps (map Lit w)) k)
              (MState ps (c :: w ++ s) cs)).
    rewrite rmatch_Lit_hit, IH. f_equal. f_equal. simpl. lia.
Qed.

Lemma rmatch_Opt_skip (r : regex) (k : cont) (st : mstate) :
  rmatch r k st = None -> rmatch (Opt r) k st = k st.
Proof. intros H. simpl. rewrite H. reflexivity. Qed.

Lemma rmatch_Seq (r1 r2 : regex) (k : cont) (st : mstate) :
  rmatch (Seq r1 r2) k st = rmatch r1 (rmatch r2 k) st.
Proof. reflexivity. Qed.

Lemma rmatch_Cat_cons (r : regex) (l : list regex) (k : cont) (st : mstate) :
  rmatch (Cat (r :: l)) k st = rmatch r (rmatch (Cat l) k) st.
Proof. reflexivity. Qed.

Lemma rmatch_Cat_nil (k : cont) (st : mstate) : rmatch (Cat []) k st = k st.
Proof. reflexivity. Qed.

Lemma rmatch_Opt_take (r : regex) (k : cont) (st x : mstate) :
  rmatch r k st = Some x -> rmatch (Opt r) k st = Some x.
Proof. intros H. simpl. rewrite H. reflexivity. Qed.

Lemma space_not_decimal (c : ascii) : is_space c = true -> is_decimal c = false.
Proof. each_char c. Qed.

Lemma stops_space_then (p : ascii -> bool) (ws s : str) :
  (forall c, is_space c = true -> p c = false) ->
  forallb is_space ws = true ->
  stops p s ->
  stops p (ws ++ s).
Proof.
  intros Hp Hws Hs. destruct ws as [|c ws]; simpl in *; [assumption|].
  apply andb_true_iff in Hws. apply Hp. tauto.
Qed.

Lemma rmatch_dots (k : cont) (s : str) ps cs :
  rmatch (Word "...") k (MState ps ("."%char :: "."%char :: "."%char :: s) cs)
  = k (MState (ps + 3) s cs).
Proof. apply (rmatch_Word_hit "..." k s ps cs). Qed.

(** ** The bare numeric pattern on a bare range template *)

Lemma bare_pattern_match (ws1 raw_s raw_e : str) (raw_step : option str)
  (ws2 tail : str) :
  bare_ok ws1 raw_s raw_e raw_step ws2 = true ->
  exists st,
    re_match bare_pattern (bare_template ws1 raw_s raw_e raw_step ws2 ++ tail)
    = Some st
    /\ group_str 1 st = raw_s /\ group_str 2 st = raw_e
    /\ group 3 st = raw_step.
Proof.
  unfold bare_ok. rewrite !andb_true_iff.
  intros [[[[Hws1 Hs] He] Hstep] Hws2].
  destruct (is_number_cons _ Hs) as (c1 & d1 & -> & Hc1 & Hd1).
  destruct (is_number_cons _ He) as (c2 & d2 & -> & Hc2 & Hd2).
  unfold bare_template. rewrite <- !app_assoc.
  cbn [app list_ascii_of_string].
  unfold re_match, bare_pattern.
  rewrite rmatch_Cat_cons, rmatch_Lit_hit, rmatch_Cat_cons.
  assert (Htail : stops is_space ("]"%char :: tail)) by reflexivity.
  assert (Hend : forall ps cs,
             rmatch (Cat [Star is_space; Lit "]"]) Some
               (MState ps (ws2 ++ "]"%char :: tail) cs)
             = Some (MState (S (ps + length ws2)) tail cs)).
  { intros ps cs. rewrite rmatch_Cat_cons.
    apply rmatch_Star_run; [assumption|assumption|].
    rewrite rmatch_Cat_cons, rmatch_Lit_hit. reflexivity. }
  destruct raw_step as [d3|]; cbn [step_suffix is_step] in *;
    cbn [app list_ascii_of_string].
  - destruct (is_number_cons _ Hstep) as (c3 & d3' & -> & Hc3 & Hd3).
    eexists. split.
    + apply rmatch_Star_run; [assumption| |].
      { simpl. apply decimal_not_space; assumption. }
      rewrite rmatch_Cat_cons.
      apply rmatch_Grp_Plus_run; [assumption|assumption|reflexivity|].
      rewrite rmatch_Cat_cons.
      rewrite rmatch_dots, rmatch_Cat_cons.
      apply rmatch_Grp_Plus_run; [assumption|assumption|reflexivity|].
      rewrite rmatch_Cat_cons.
      apply rmatch_Opt_take.
      rewrite rmatch_Seq, rmatch_Lit_hit.
      apply rmatch_Grp_Plus_run; [assumption|assumption| |].
      { apply stops_space_then; auto using space_not_decimal; reflexivity. }
      apply Hend.
    + cbn. auto.
  - eexists. split.
    + apply rmatch_Star_run; [assumption| |].
      { simpl. apply decimal_not_space; assumption. }
      rewrite rmatch_Cat_cons.
      apply rmatch_Grp_Plus_run; [assumption|assumption|reflexivity|].
      rewrite rmatch_Cat_cons.
      rewrite rmatch_dots, rmatch_Cat_cons.
      apply rmatch_Grp_Plus_run; [assumption|assumption| |].
      { apply stops_space_then; auto using space_not_decimal; reflexivity. }
      rewrite rmatch_Cat_cons, rmatch_Opt_skip.
      * apply Hend.
      * rewrite rmatch_Seq. apply rmatch_Lit_miss.
        destruct ws2 as [|w ws2]; simpl in *; [discriminate|].
        apply andb_true_iff in Hws2. destruct Hws2 as [Hw _].
        intros <-. discriminate.
    + cbn. auto.
Qed.

(** ** [int], [str], [zfill] and [range] *)

Lemma lstrip_by_id (p : ascii -> bool) (s : str) :
  forallb (fun c => negb (p c)) s = true -> lstrip_by p s = s.
Proof.
  destruct s as [|c s]; simpl; [reflexivity|].
  intros H. apply andb_true_iff in H. destruct H as [H _].
  apply negb_true_iff in H. rewrite H. reflexivity.
Qed.

Lemma strip_by_id (p : ascii -> bool) (s : str) :
  forallb (fun c => negb (p c)) s = true -> strip_by p s = s.
Proof.
  intros H. unfold strip_by. rewrite (lstrip_by_id p s H).
  rewrite lstrip_by_id, rev_involutive; [reflexivity|].
  rewrite forallb_forall in *. intros c Hc. apply H, in_rev, Hc.
Qed.

Lemma decimal_not_int_space (c : ascii) :
  is_decimal c = true -> is_int_space c = false.
Proof. each_char c. Qed.

Lemma decimal_no_space (d : str) :
  forallb is_decimal d = true ->
  forallb (fun c => negb (is_int_space c)) d = true.
Proof.
  apply forallb_imp. intros c Hc. rewrite (decimal_not_int_space c Hc).
  reflexivity.
Qed.

Lemma decimal_not_sign (c : ascii) :
  is_decimal c = true ->
  Ascii.eqb c "-" = false /\ Ascii.eqb c "+" = false /\ Ascii.eqb c "_" = false.
Proof. each_char c; auto. Qed.

Lemma int_digits_decimal (d : str) :
  forall acc,
    forallb is_decimal d = true ->
    int_digits acc false d
    = Some (fold_left (fun a c => 10 * a + digit_val c) d acc).
Proof.
  induction d as [|c d IH]; intros acc H; simpl in *; [reflexivity|].
  apply andb_true_iff in H. destruct H as [Hc Hd].
  rewrite Hc. apply IH, Hd.
Qed.

Lemma py_int_number (d : str) :
  is_number d = true -> py_int d = Returns (number_value d).
Proof.
  intros H. destruct (is_number_cons d H) as (c & d' & -> & Hc & Hd).
  unfold py_int. rewrite strip_by_id.
  2:{ apply decimal_no_space. simpl. rewrite Hc, Hd. reflexivity. }
  destruct (decimal_not_sign c Hc) as (-> & -> & _).
  unfold int_unsigned. rewrite Hc.
  rewrite int_digits_decimal; [reflexivity|].
  simpl. rewrite Hc, Hd. reflexivity.
Qed.

Lemma digit_val_range (c : ascii) :
  is_decimal c = true -> 0 <= digit_val c <= 9.
Proof. each_char c; split; discriminate. Qed.

Lemma number_value_bound (d : str) :
  forall acc,
    0 <= acc ->
    forallb is_decimal d = true ->
    0 <= fold_left (fun a c => 10 * a + digit_val c) d acc
      < (acc + 1) * 10 ^ Z.of_nat (length d).
Proof.
  induction d as [|c d IH]; intros acc Hacc H.
  - simpl. lia.
  - simpl in H. apply andb_true_iff in H. destruct H as [Hc Hd].
    pose proof (digit_val_range c Hc) as Hv.
    cbn [fold_left length].
    specialize (IH (10 * acc + digit_val c) ltac:(lia) Hd).
    rewrite Nat2Z.inj_succ, Z.pow_succ_r by lia.
    assert (0 < 10 ^ Z.of_nat (length d)) by (apply Z.pow_pos_nonneg; lia).
    nia.
Qed.

Lemma number_value_lt (d : str) :
  forallb is_decimal d = true ->
  0 <= number_value d < 10 ^ Z.of_nat (length d).
Proof.
  intros H. pose proof (number_value_bound d 0 ltac:(lia) H) as B.
  unfold number_value. lia.
Qed.

Lemma digit_char_decimal (n : Z) :
  0 <= n <= 9 -> is_decimal (digit_char n) = true /\ digit_val (digit_char n) = n.
Proof.
  intros H. rewrite <- (Z2Nat.id n) by lia.
  assert (L : (Z.to_nat n < 10)%nat) by lia. revert L.
  generalize (Z.to_nat n) as m. intros m L.
  do 10 (destruct m as [|m]; [split; reflexivity|]). lia.
Qed.

(** The digits [digits_of] puts in front of [acc]. *)
Lemma digits_of_unfold (fuel : nat) (n : Z) (acc : str) :
  digits_of (S fuel) n acc
  = if n <? 10 then digit_char (n mod 10) :: acc
    else digits_of fuel (n / 10) (digit_char (n mod 10) :: acc).
Proof. reflexivity. Qed.

Lemma number_value_snoc (ds : str) (c : ascii) :
  number_value (ds ++ [c]) = 10 * number_value ds + digit_val c.
Proof. unfold number_value. rewrite fold_left_app. reflexivity. Qed.

Lemma digits_of_spec (fuel : nat) :
  forall n acc,
    0 <= n < 10 ^ Z.of_nat (S fuel) ->
    exists ds,
      digits_of (S fuel) n acc = ds ++ acc
      /\ ds <> []
      /\ forallb is_decimal ds = true
      /\ number_value ds = n
      /\ (forall k, (1 <= k)%nat -> n < 10 ^ Z.of_nat k -> (length ds <= k)%nat).
Proof.
  induction fuel as [|fuel IH]; intros n acc Hn; rewrite digits_of_unfold;
    destruct (Z.ltb_spec n 10) as [Hlt | Hge].
  1,3: rewrite Z.mod_small by lia;
      destruct (digit_char_decimal n ltac:(lia)) as [Hd Hv];
      exists [digit_char n];
      split; [reflexivity|];
      split; [discriminate|];
      split; [cbn [forallb]; rewrite Hd; reflexivity|];
      split; [change [digit_char n] with ([] ++ [digit_char n]);
              rewrite number_value_snoc, Hv; reflexivity|];
      intros k Hk _; cbn [length]; lia.
  - change (Z.of_nat 1) with 1 in Hn. lia.
  - assert (Hq : 0 <= n / 10 < 10 ^ Z.of_nat (S fuel)).
    { split; [apply Z.div_pos; lia|].
      apply Z.div_lt_upper_bound; [lia|].
      rewrite (Nat2Z.inj_succ (S fuel)), Z.pow_succ_r in Hn by lia. lia. }
    destruct (IH (n / 10) (digit_char (n mod 10) :: acc) Hq)
      as (ds & E & Hne & Hds & Hval & Hlen).
    pose proof (Z.mod_pos_bound n 10 ltac:(lia)) as Hm.
    destruct (digit_char_decimal (n mod 10) ltac:(lia)) as [Hd Hv].
    exists (ds ++ [digit_char (n mod 10)]).
    split; [rewrite E, <- app_assoc; reflexivity|].
    split; [destruct ds; discriminate|].
    split; [rewrite forallb_app, Hds; cbn [forallb]; rewrite Hd; reflexivity|].
    split.
    + rewrite number_value_snoc, Hval, Hv.
      pose proof (Z.div_mod n 10 ltac:(lia)). lia.
    + intros k Hk Hnk. rewrite length_app. cbn [length].
      destruct k as [|[|k]]; [lia| change (Z.of_nat 1) with 1 in Hnk; lia |].
      assert (length ds <= S k)%nat; [|lia].
      apply Hlen; [lia|].
      apply Z.div_lt_upper_bound; [lia|].
      rewrite (Nat2Z.inj_succ (S k)), Z.pow_succ_r in Hnk by lia. lia.
Qed.

Lemma log2_fuel (n : Z) : 0 <= n -> n < 10 ^ Z.of_nat (S (Z.to_nat (Z.log2 n))).
Proof.
  intros H. rewrite Nat2Z.inj_succ, Z2Nat.id by apply Z.log2_nonneg.
  destruct (Z.eq_dec n 0) as [-> | Hnz]; [reflexivity|].
  pose proof (Z.log2_spec n ltac:(lia)) as [_ Hu].
  eapply Z.lt_le_trans; [exact Hu|].
  apply Z.pow_le_mono_l. lia.
Qed.

(** [str(n)] of a natural number: decimal digits that denote it. *)
Lemma py_str_spec (n : Z) :
  0 <= n ->
  py_str n <> []
  /\ forallb is_decimal (py_str n) = true
  /\ number_value (py_str n) = n
  /\ (forall k, (1 <= k)%nat -> n < 10 ^ Z.of_nat k -> (length (py_str n) <= k)%nat).
Proof.
  intros H. unfold py_str.
  destruct (Z.ltb_spec n 0) as [|_]; [lia|].
  destruct (digits_of_spec (Z.to_nat (Z.log2 n)) n [])
    as (ds & E & Hne & Hds & Hval & Hlen).
  { split; [assumption|apply log2_fuel; assumption]. }
  rewrite E, app_nil_r. auto.
Qed.

Lemma zfill_py_str (width : nat) (i : Z) :
  0 <= i -> zfill width (py_str i) = padded width i.
Proof.
  intros H. destruct (py_str_spec i H) as (Hne & Hd & _).
  unfold zfill, padded. destruct (Nat.leb_spec width (length (py_str i))) as [L|L].
  - replace (width - length (py_str i))%nat with O by lia. reflexivity.
  - destruct (py_str i) as [|c s]; [contradiction|].
    simpl in Hd. apply andb_true_iff in Hd. destruct Hd as [Hc _].
    destruct (decimal_not_sign c Hc) as (-> & -> & _). reflexivity.
Qed.

Lemma padded_length (width : nat) (i : Z) :
  (length (py_str i) <= width)%nat -> length (padded width i) = width.
Proof.
  intros H. unfold padded. rewrite length_app, repeat_length. lia.
Qed.

Lemma range_len_bounds (start stop step : Z) (k : nat) :
  0 < step ->
  (k < Z.to_nat (range_len start stop step))%nat ->
  start <= start + Z.of_nat k * step < stop.
Proof.
  intros Hs Hk. unfold range_len in Hk.
  destruct (Z.ltb_spec 0 step); [|lia].
  destruct (Z.ltb_spec start stop); [|simpl in Hk; lia].
  assert (Hq : 0 <= (stop - start - 1) / step) by (apply Z.div_pos; lia).
  assert (Z.of_nat k <= (stop - start - 1) / step) by lia.
  pose proof (Z.mul_div_le (stop - start - 1) step Hs).
  nia.
Qed.

Lemma py_range_positive (start stop step : Z) :
  0 < step ->
  exists r, py_range start stop step = Returns r
            /\ (forall i, In i r -> start <= i < stop)
            /\ (stop <= start -> r = []).
Proof.
  intros Hs. unfold py_range.
  destruct (Z.eqb_spec step 0); [lia|].
  eexists. split; [reflexivity|]. split.
  - intros i Hi. apply in_map_iff in Hi. destruct Hi as (k & <- & Hk).
    apply in_seq in Hk. apply range_len_bounds; [assumption|lia].
  - intros Hle. unfold range_len.
    destruct (Z.ltb_spec 0 step); [|lia].
    destruct (Z.ltb_spec start stop); [lia|]. reflexivity.
Qed.

Lemma py_range_zero (start stop : Z) : py_range start stop 0 = Raises ValueError.
Proof. reflexivity. Qed.

(** ** The matcher: what any successful run looks like *)

Lemma star_greedy_sound (p : ascii -> bool) (k : cont) (s : str) :
  forall ps cs x,
    star_greedy p k ps cs s = Some x ->
    exists w s',
      s = w ++ s' /\ forallb p w = true
      /\ k (MState (ps + length w) s' cs) = Some x
      /\ (forall w2 s2, s = w2 ++ s2 -> forallb p w2 = true ->
                        (length w < length w2)%nat ->
                        k (MState (ps + length w2) s2 cs) = None).
Proof.
  assert (Hnone : forall s ps cs,
             star_greedy p k ps cs s = None ->
             forall w s2, s = w ++ s2 -> forallb p w = true ->
                          k (MState (ps + length w) s2 cs) = None).
  { clear s. induction s as [|c s IH]; intros ps cs H w s2 E Hw.
    - destruct w; [|discriminate]. simpl in *. subst.
      rewrite Nat.add_0_r. assumption.
    - simpl in H. destruct w as [|c' w]; simpl in E.
      + subst s2. simpl. rewrite Nat.add_0_r.
        destruct (p c); [|assumption].
        destruct (star_greedy p k (S ps) cs s); [discriminate|assumption].
      + injection E as <- ->. simpl in Hw.
        apply andb_true_iff in Hw. destruct Hw as [Hc Hw]. rewrite Hc in H.
        destruct (star_greedy p k (S ps) cs (w ++ s2)) eqn:E'; [discriminate|].
        specialize (IH (S ps) cs E' w s2 eq_refl Hw).
        rewrite <- IH. f_equal. f_equal. simpl. lia. }
  induction s as [|c s IH]; intros ps cs x H.
  - simpl in H. exists [], []. simpl. rewrite Nat.add_0_r.
    repeat split; auto. intros w2 s2 E _ L.
    destruct w2; [simpl in L; lia|discriminate].
  - simpl in H. destruct (p c) eqn:Hc.
    + destruct (star_greedy p k (S ps) cs s) eqn:E.
      * injection H as ->. destruct (IH (S ps) cs x E) as (w & s' & -> & Hw & Hk & Hmax).
        exists (c :: w), s'. simpl. rewrite Hc, Hw. repeat split; auto.
        { rewrite <- Hk. f_equal. f_equal. lia. }
        intros w2 s2 E2 Hw2 L. destruct w2 as [|c2 w2]; [simpl in L; lia|].
        simpl in E2. injection E2 as <- E2. simpl in Hw2.
        apply andb_true_iff in Hw2. destruct Hw2 as [_ Hw2].
        specialize (Hmax w2 s2 E2 Hw2 ltac:(simpl in L; lia)).
        rewrite <- Hmax. f_equal. f_equal. simpl. lia.
      * exists [], (c :: s). simpl. rewrite Nat.add_0_r. repeat split; auto.
        intros w2 s2 E2 Hw2 L. destruct w2 as [|c2 w2]; [simpl in L; lia|].
        simpl in E2. injection E2 as <- E2. simpl in Hw2.
        apply andb_true_iff in Hw2. destruct Hw2 as [_ Hw2].
        pose proof (Hnone s (S ps) cs E w2 s2 E2 Hw2) as N.
        rewrite <- N. f_equal. f_equal. simpl. lia.
    + exists [], (c :: s). simpl. rewrite Nat.add_0_r. repeat split; auto.
      intros w2 s2 E2 Hw2 L. destruct w2 as [|c2 w2]; [simpl in L; lia|].
      simpl in E2. injection E2 as <- E2. simpl in Hw2. rewrite Hc in Hw2.
      discriminate.
Qed.

Lemma star_lazy_sound (p : ascii -> bool) (k : cont) (s : str) :
  forall ps cs x,
    star_lazy p k ps cs s = Some x ->
    exists w s',
      s = w ++ s' /\ forallb p w = true
      /\ k (MState (ps + length w) s' cs) = Some x.
Proof.
  induction s as [|c s IH]; intros ps cs x H; simpl in H.
  - destruct (k (MState ps [] cs)) eqn:E; [|discriminate].
    injection H as ->. exists [], []. simpl. rewrite Nat.add_0_r. auto.
  - destruct (k (MState ps (c :: s) cs)) eqn:E.
    + injection H as ->. exists [], (c :: s). simpl. rewrite Nat.add_0_r. auto.
    + destruct (p c) eqn:Hc; [|discriminate].
      destruct (IH (S ps) cs x H) as (w & s' & -> & Hw & Hk).
      exists (c :: w), s'. simpl. rewrite Hc, Hw. repeat split; auto.
      rewrite <- Hk. f_equal. f_equal. lia.
Qed.

Lemma step_char_sound (p : ascii -> bool) (k : cont) (st x : mstate) :
  step_char p k st = Some x ->
  exists c s',
    rest st = c :: s' /\ p c = true
    /\ k (MState (S (pos st)) s' (caps st)) = Some x.
Proof.
  unfold step_char. destruct (rest st) as [|c s']; [discriminate|].
  destruct (p c) eqn:Hc; [|discriminate]. intros H. exists c, s'. auto.
Qed.

(** Soundness of the matcher: a successful run consumed a word that the
    pattern parses, and the continuation succeeded after it. *)
Lemma rmatch_sound (r : regex) :
  forall k st x,
    rmatch r k st = Some x ->
    exists w st',
      rest st = w ++ rest st'
      /\ pos st' = (pos st + length w)%nat
      /\ parses r w (caps st) (caps st')
      /\ k st' = Some x.
Proof.
  induction r as [ |c|p|r1 IH1 r2 IH2|r1 IH1 r2 IH2|p|p|r1 IH1|n r1 IH1| | ];
    intros k st x H; cbn [rmatch] in H.
  - exists [], st. simpl. rewrite Nat.add_0_r. auto.
  - destruct (step_char_sound _ _ _ _ H) as (c' & s' & E & Hc & Hk).
    apply eqb_char_eq in Hc. subst c'.
    exists [c], (MState (S (pos st)) s' (caps st)). simpl.
    repeat split; auto. lia.
  - destruct (step_char_sound _ _ _ _ H) as (c' & s' & E & Hc & Hk).
    exists [c'], (MState (S (pos st)) s' (caps st)). simpl.
    repeat split; auto; [lia|]. exists c'. auto.
  - destruct (IH1 _ _ _ H) as (w1 & st1 & E1 & P1 & Q1 & K1).
    destruct (IH2 _ _ _ K1) as (w2 & st2 & E2 & P2 & Q2 & K2).
    exists (w1 ++ w2), st2. repeat split; auto.
    + rewrite E1, E2, app_assoc. reflexivity.
    + rewrite P2, P1, length_app. lia.
    + simpl. exists w1, w2, (caps st1). auto.
  - destruct (rmatch r1 k st) eqn:E.
    + injection H as ->. destruct (IH1 _ _ _ E) as (w & st' & ? & ? & ? & ?).
      exists w, st'. simpl. repeat split; auto.
    + destruct (IH2 _ _ _ H) as (w & st' & ? & ? & ? & ?).
      exists w, st'. simpl. repeat split; auto.
  - destruct (star_greedy_sound _ _ _ _ _ _ H) as (w & s' & E & Hw & Hk & _).
    exists w, (MState (pos st + length w) s' (caps st)). simpl. auto.
  - destruct (star_lazy_sound _ _ _ _ _ _ H) as (w & s' & E & Hw & Hk).
    exists w, (MState (pos st + length w) s' (caps st)). simpl. auto.
  - destruct (rmatch r1 k st) eqn:E.
    + injection H as ->. destruct (IH1 _ _ _ E) as (w & st' & ? & ? & ? & ?).
      exists w, st'. simpl. repeat split; auto.
    + exists [], st. simpl. rewrite Nat.add_0_r. repeat split; auto.
  - destruct (IH1 _ _ _ H) as (w & st' & E & P & Q & K).
    exists w, (close_group n st st'). unfold close_group. cbn [rest pos caps].
    repeat split; auto. simpl. exists (caps st'). split; [assumption|].
    rewrite E, firstn_exact by assumption. reflexivity.
  - destruct (pos st =? 0)%nat; [|discriminate].
    exists [], st. simpl. rewrite Nat.add_0_r. auto.
  - exists [], st. simpl. rewrite Nat.add_0_r. repeat split; auto.
    destruct (rest st) as [|c [|c' s']]; try discriminate; auto.
    destruct (code c =? 10)%nat; [assumption|discriminate].
Qed.

Lemma re_match_sound (r : regex) (s : str) (st : mstate) :
  re_match r s = Some st ->
  exists w, s = w ++ rest st /\ pos st = length w /\ parses r w [] (caps st).
Proof.
  intros H. destruct (rmatch_sound r _ _ _ H) as (w & st' & E & P & Q & K).
  injection K as ->. exists w. simpl in *. auto.
Qed.

Lemma first_stop_unique (P : ascii -> bool) (a : str) :
  forall b c d x y,
    forallb P a = true -> forallb P b = true ->
    P c = false -> P d = false ->
    a ++ c :: x = b ++ d :: y ->
    a = b /\ c = d /\ x = y.
Proof.
  induction a as [|a0 a IH]; intros b c d x y Ha Hb Hc Hd E.
  - destruct b as [|b0 b]; simpl in *.
    + injection E as -> ->. auto.
    + injection E as -> _. apply andb_true_iff in Hb. destruct Hb; congruence.
  - destruct b as [|b0 b]; simpl in *.
    + injection E as -> _. apply andb_true_iff in Ha. destruct Ha; congruence.
    + injection E as -> E. apply andb_true_iff in Ha. apply andb_true_iff in Hb.
      destruct (IH b c d x y) as (-> & -> & ->); tauto.
Qed.

Lemma parses_accepts_only (P : ascii -> bool) (r : regex) :
  forall w cs cs',
    accepts_only P r -> parses r w cs cs' -> forallb P w = true.
Proof.
  induction r as [ |c|p|r1 IH1 r2 IH2|r1 IH1 r2 IH2|p|p|r1 IH1|n r1 IH1| | ];
    intros w cs cs' A H; simpl in *.
  - destruct H as [-> _]. reflexivity.
  - destruct H as [-> _]. simpl. rewrite A. reflexivity.
  - destruct H as (c & -> & Hc & _). simpl. rewrite (A c Hc). reflexivity.
  - destruct H as (w1 & w2 & cm & -> & H1 & H2). destruct A as [A1 A2].
    rewrite forallb_app, (IH1 _ _ _ A1 H1), (IH2 _ _ _ A2 H2). reflexivity.
  - destruct A as [A1 A2]. destruct H as [H|H]; eauto.
  - destruct H as [H _]. revert H. apply forallb_imp, A.
  - destruct H as [H _]. revert H. apply forallb_imp, A.
  - destruct H as [[-> _]|H]; [reflexivity|eauto].
  - destruct H as (cm & H & _). eauto.
  - destruct H as [-> _]. reflexivity.
  - destruct H as [-> _]. reflexivity.
Qed.

Lemma parses_Cat_app (l1 l2 : list regex) :
  forall w cs cs',
    parses (Cat (l1 ++ l2)) w cs cs' ->
    exists w1 w2 cm,
      w = w1 ++ w2 /\ parses (Cat l1) w1 cs cm /\ parses (Cat l2) w2 cm cs'.
Proof.
  induction l1 as [|r l1 IH]; intros w cs cs' H.
  - exists [], w, cs. simpl. auto.
  - change (Cat ((r :: l1) ++ l2)) with (Seq r (Cat (l1 ++ l2))) in H.
    simpl in H. destruct H as (w1 & w2 & cm & -> & H1 & H2).
    destruct (IH _ _ _ H2) as (v1 & v2 & cm' & -> & G1 & G2).
    exists (w1 ++ v1), v2, cm'. rewrite app_assoc. repeat split; auto.
    change (Cat (r :: l1)) with (Seq r (Cat l1)). simpl.
    exists w1, v1, cm. auto.
Qed.

Lemma space_is_prefix_char (c : ascii) :
  is_space c = true -> is_prefix_char c = true.
Proof. each_char c. Qed.

Lemma decimal_is_prefix_char (c : ascii) :
  is_decimal c = true -> is_prefix_char c = true.
Proof. each_char c. Qed.

Lemma bound_is_prefix_char (c : ascii) :
  is_bound_char c = true -> is_prefix_char c = true.
Proof. each_char c. Qed.

(** A match of the bare pattern ends at the first closing bracket, and no
    comma comes before it. *)
Lemma bare_pattern_shape (s : str) (st : mstate) :
  re_match bare_pattern s = Some st ->
  exists w0, s = w0 ++ "]"%char :: rest st /\ forallb is_prefix_char w0 = true.
Proof.
  intros H. destruct (re_match_sound _ _ _ H) as (w & -> & _ & P).
  change bare_pattern
    with (Cat ([Lit "["; Star is_space; Grp 1 (Plus is_decimal); Word "...";
                Grp 2 (Plus is_decimal);
                Opt (Seq (Lit ":") (Grp 3 (Plus is_decimal)));
                Star is_space] ++ [Lit "]"])) in P.
  destruct (parses_Cat_app _ _ _ _ _ P) as (w1 & w2 & cm & -> & P1 & P2).
  exists w1. split.
  - simpl in P2. destruct P2 as (v1 & v2 & cm' & -> & [-> _] & [-> _]).
    rewrite <- app_assoc. reflexivity.
  - apply (parses_accepts_only is_prefix_char) in P1; [assumption|].
    unfold Cat, Word, Plus. cbn [fold_right map list_ascii_of_string accepts_only].
    repeat split;
      auto using space_is_prefix_char, decimal_is_prefix_char.
Qed.

Lemma bare_numeric_prefixed (prefix ws raw_s raw_e : str)
  (raw_step : option str) (tail : str) :
  is_prefix prefix = true ->
  bare_numeric (prefixed_template prefix ws raw_s raw_e raw_step ++ tail) = None.
Proof.
  intros Hp. unfold bare_numeric.
  destruct (re_match bare_pattern _) as [st|] eqn:E; [|reflexivity].
  exfalso. destruct (bare_pattern_shape _ _ E) as (w0 & E0 & Hw0).
  unfold prefixed_template in E0. rewrite <- !app_assoc in E0.
  change ("[" ++ prefix ++ "," ++ ?x)
    with (("["%char :: prefix) ++ ","%char :: x) in E0.
  destruct (is_prefix_cons _ Hp) as (c & p' & -> & Hc & Hp').
  symmetry in E0.
  assert (Hall : forallb is_prefix_char ("["%char :: c :: p') = true)
    by (simpl; rewrite Hc, Hp'; reflexivity).
  apply (first_stop_unique is_prefix_char) in E0; auto.
  destruct E0 as (_ & E0 & _). discriminate.
Qed.

(** ** The prefixed pattern on a prefixed range template *)

Lemma prefixed_pattern_match (prefix ws raw_s raw_e tail : str) :
  prefixed_ok prefix ws raw_s raw_e None = true ->
  exists st,
    re_match prefixed_pattern
      (prefixed_template prefix ws raw_s raw_e None ++ tail) = Some st
    /\ group_str 1 st = prefix /\ group_str 2 st = raw_s
    /\ group_str 3 st = raw_e /\ group 4 st = None.
Proof.
  unfold prefixed_ok. rewrite !andb_true_iff.
  intros [[[[Hp Hws] Hs] He] _].
  destruct (is_prefix_cons _ Hp) as (c0 & p' & -> & Hc0 & Hp').
  destruct (is_bound_cons _ Hs) as (c1 & d1 & -> & Hc1 & Hd1).
  destruct (is_bound_cons _ He) as (c2 & d2 & -> & Hc2 & Hd2).
  unfold prefixed_template. rewrite <- !app_assoc.
  cbn [app list_ascii_of_string step_suffix].
  unfold re_match, prefixed_pattern.
  rewrite rmatch_Cat_cons, rmatch_Lit_hit, rmatch_Cat_cons.
  eexists. split.
  - apply rmatch_Grp_Plus_run; [assumption|assumption|reflexivity|].
    rewrite rmatch_Cat_cons, rmatch_Lit_hit, rmatch_Cat_cons.
    apply rmatch_Star_run; [assumption| |].
    { simpl. apply bound_char_not_space; assumption. }
    rewrite rmatch_Cat_cons.
    apply rmatch_Grp_Plus_run; [assumption|assumption|reflexivity|].
    rewrite rmatch_Cat_cons, rmatch_dots, rmatch_Cat_cons.
    apply rmatch_Grp_Plus_run; [assumption|assumption|reflexivity|].
    rewrite rmatch_Cat_cons, rmatch_Opt_skip.
    + rewrite rmatch_Cat_cons, rmatch_Lit_hit. reflexivity.
    + rewrite rmatch_Seq. apply rmatch_Lit_miss. discriminate.
  - cbn. auto.
Qed.

Lemma prefixed_template_step (prefix ws raw_s raw_e d : str) :
  prefixed_template prefix ws raw_s raw_e (Some d)
  = prefixed_template prefix ws raw_s (raw_e ++ ":" ++ d) None.
Proof.
  unfold prefixed_template. cbn [step_suffix]. rewrite <- !app_assoc.
  reflexivity.
Qed.

Lemma is_bound_step (raw_e d : str) :
  is_bound raw_e = true -> is_number d = true ->
  is_bound (raw_e ++ ":" ++ d) = true.
Proof.
  intros He Hd. destruct (is_bound_cons _ He) as (c & e' & -> & Hc & He').
  apply is_number_forallb in Hd.
  apply (forallb_imp _ is_bound_char _ decimal_is_bound_char) in Hd.
  cbn [app is_bound forallb list_ascii_of_string].
  rewrite Hc, forallb_app, He'. cbn [forallb]. rewrite Hd. reflexivity.
Qed.

(** ** What the two range matchers do on a range template *)

Lemma step_of_token (raw_step : option str) :
  is_step raw_step = true -> step_of raw_step = Returns (step_value raw_step).
Proof.
  destruct raw_step as [d|]; simpl; [|reflexivity].
  intros H. destruct (is_number_cons d H) as (c & t & -> & _ & _).
  apply py_int_number, H.
Qed.

Lemma bare_numeric_template (ws1 raw_s raw_e : str) (raw_step : option str)
  (ws2 tail : str) :
  bare_ok ws1 raw_s raw_e raw_step ws2 = true ->
  bare_numeric (bare_template ws1 raw_s raw_e raw_step ws2 ++ tail)
  = Some (r <- py_range (number_value raw_s) (number_value raw_e + 1)
                        (step_value raw_step) ;;
          Returns (map (fun i => zfill (Nat.max (length raw_s) (length raw_e))
                                       (py_str i)) r)).
Proof.
  intros Hok.
  destruct (bare_pattern_match _ _ _ _ _ tail Hok) as (st & E & G1 & G2 & G3).
  unfold bare_ok in Hok. rewrite !andb_true_iff in Hok.
  destruct Hok as [[[[_ Hs] He] Hstep] _].
  unfold bare_numeric. rewrite E, G1, G2, G3.
  rewrite (py_int_number _ Hs), (py_int_number _ He), (step_of_token _ Hstep).
  reflexivity.
Qed.

Lemma prefixed_range_template (fuel : nat) (prefix ws raw_s raw_e tail : str) :
  prefixed_ok prefix ws raw_s raw_e None = true ->
  prefixed_range fuel (prefixed_template prefix ws raw_s raw_e None ++ tail)
  = match start_kind raw_s with
    | Some Numeric => Some (prefixed_numeric (strip prefix) raw_s raw_e 1)
    | Some Time => Some (prefixed_time fuel (strip prefix) raw_s raw_e 1)
    | Some Alpha => Some (prefixed_alpha (strip prefix) raw_s raw_e 1)
    | None => None
    end.
Proof.
  intros Hok.
  destruct (prefixed_pattern_match _ _ _ _ tail Hok)
    as (st & E & G1 & G2 & G3 & G4).
  unfold prefixed_range. rewrite E, G1, G2, G3, G4. cbn [step_of].
  unfold start_kind.
  destruct (isdigit raw_s); [reflexivity|].
  destruct (contains ":" raw_s); [reflexivity|].
  destruct ((length raw_s =? 1)%nat && isalpha raw_s); reflexivity.
Qed.

(** A prefixed template with a step token reads as one without, whose end
    bound has swallowed the colon and the step: the run of bound characters
    of the pattern is greedy and the colon is one of them. *)
Lemma prefixed_ok_step (prefix ws raw_s raw_e : str) (raw_step : option str) :
  prefixed_ok prefix ws raw_s raw_e raw_step = true ->
  prefixed_ok prefix ws raw_s (raw_e ++ step_suffix raw_step) None = true.
Proof.
  unfold prefixed_ok. rewrite !andb_true_iff.
  intros [[[[Hp Hws] Hs] He] Hstep]. repeat split; auto.
  destruct raw_step as [d|]; cbn [step_suffix].
  - apply is_bound_step; assumption.
  - rewrite app_nil_r. assumption.
Qed.

Lemma prefixed_template_swallow (prefix ws raw_s raw_e : str)
  (raw_step : option str) :
  prefixed_template prefix ws raw_s raw_e raw_step
  = prefixed_template prefix ws raw_s (raw_e ++ step_suffix raw_step) None.
Proof.
  destruct raw_step as [d|]; cbn [step_suffix].
  - apply prefixed_template_step.
  - rewrite app_nil_r. reflexivity.
Qed.

(** The outcome of the call on a well-formed range template followed by any
    text, matcher by matcher. *)
Lemma by_bare (fuel : nat) (ws1 raw_s raw_e : str) (raw_step : option str)
  (ws2 tail : str) :
  bare_ok ws1 raw_s raw_e raw_step ws2 = true ->
  interpret_template_string_by fuel
    (bare_template ws1 raw_s raw_e raw_step ws2 ++ tail)
  = (BareNumeric,
     r <- py_range (number_value raw_s) (number_value raw_e + 1)
                   (step_value raw_step) ;;
     Returns (map (fun i => zfill (Nat.max (length raw_s) (length raw_e))
                                  (py_str i)) r)).
Proof.
  intros Hok. unfold interpret_template_string_by.
  rewrite (bare_numeric_template _ _ _ _ _ tail Hok). reflexivity.
Qed.

Lemma prefixed_ok_prefix (prefix ws raw_s raw_e : str) (raw_step : option str) :
  prefixed_ok prefix ws raw_s raw_e raw_step = true -> is_prefix prefix = true.
Proof.
  unfold prefixed_ok. rewrite !andb_true_iff. tauto.
Qed.

Lemma by_prefixed (fuel : nat) (prefix ws raw_s raw_e : str)
  (raw_step : option str) (tail : str) (k : bound_kind) :
  prefixed_ok prefix ws raw_s raw_e raw_step = true ->
  start_kind raw_s = Some k ->
  interpret_template_string_by fuel
    (prefixed_template prefix ws raw_s raw_e raw_step ++ tail)
  = (PrefixedRange,
     let raw_e' := raw_e ++ step_suffix raw_step in
     match k with
     | Numeric => prefixed_numeric (strip prefix) raw_s raw_e' 1
     | Time => prefixed_time fuel (strip prefix) raw_s raw_e' 1
     | Alpha => prefixed_alpha (strip prefix) raw_s raw_e' 1
     end).
Proof.
  intros Hok Hk. unfold interpret_template_string_by.
  rewrite (bare_numeric_prefixed _ _ _ _ _ tail (prefixed_ok_prefix _ _ _ _ _ Hok)).
  rewrite prefixed_template_swallow.
  rewrite (prefixed_range_template fuel _ _ _ _ tail (prefixed_ok_step _ _ _ _ _ Hok)).
  rewrite Hk. destruct k; reflexivity.
Qed.

(** ** Numeric ranges: padding *)

Lemma number_value_zeros (n : nat) (d : str) :
  number_value (repeat "0"%char n ++ d) = number_value d.
Proof.
  unfold number_value. rewrite fold_left_app. f_equal.
  induction n as [|n IH]; simpl; [reflexivity|]. exact IH.
Qed.

Lemma padded_spec (width : nat) (i bound : Z) (len : nat) :
  0 <= i <= bound ->
  bound < 10 ^ Z.of_nat len ->
  (1 <= len <= width)%nat ->
  zfill width (py_str i) = padded width i
  /\ length (padded width i) = width
  /\ forallb is_decimal (padded width i) = true
  /\ number_value (padded width i) = i.
Proof.
  intros Hi Hb Hl.
  destruct (py_str_spec i ltac:(lia)) as (Hne & Hd & Hv & Hlen).
  assert (L : (length (py_str i) <= len)%nat) by (apply Hlen; lia).
  repeat split.
  - apply zfill_py_str. lia.
  - apply padded_length. lia.
  - unfold padded. rewrite forallb_app, Hd, andb_true_r.
    apply forallb_forall. intros c Hc. apply repeat_spec in Hc. subst c.
    reflexivity.
  - unfold padded. rewrite number_value_zeros. exact Hv.
Qed.

Lemma numeric_elements (pre raw_s raw_e : str) (r : list Z) :
  is_number raw_s = true ->
  is_number raw_e = true ->
  (forall i, In i r -> number_value raw_s <= i < number_value raw_e + 1) ->
  let width := Nat.max (length raw_s) (length raw_e) in
  Forall (padded_element pre width)
         (map (fun i => pre ++ zfill width (py_str i)) r).
Proof.
  intros Hs He Hr width.
  pose proof (number_value_lt _ (is_number_forallb _ Hs)) as Bs.
  pose proof (number_value_lt _ (is_number_forallb _ He)) as Be.
  assert (Hlen : (1 <= length raw_e <= width)%nat).
  { destruct raw_e; [discriminate|]. subst width. cbn [length]. lia. }
  apply Forall_forall. intros x Hx. apply in_map_iff in Hx.
  destruct Hx as (i & <- & Hi). specialize (Hr i Hi).
  destruct (padded_spec width i (number_value raw_e) (length raw_e))
    as (-> & ? & ? & ?); [lia|lia|lia|].
  exists i. auto.
Qed.

(** ** [int] on the bounds of a prefixed range *)

Lemma bound_char_plain (c : ascii) :
  is_bound_char c = true ->
  Ascii.eqb c "-" = false /\ Ascii.eqb c "+" = false /\ Ascii.eqb c "_" = false.
Proof. each_char c; auto. Qed.

Lemma bound_char_not_int_space (c : ascii) :
  is_bound_char c = true -> is_int_space c = false.
Proof. each_char c. Qed.

Lemma bound_no_space (b : str) :
  forallb is_bound_char b = true ->
  forallb (fun c => negb (is_int_space c)) b = true.
Proof.
  apply forallb_imp. intros c Hc. rewrite (bound_char_not_int_space c Hc).
  reflexivity.
Qed.

Lemma int_digits_bound (s : str) :
  forall acc n,
    forallb is_bound_char s = true ->
    int_digits acc false s = Some n ->
    forallb is_decimal s = true.
Proof.
  induction s as [|c s IH]; intros acc n Hb H; simpl in *; [reflexivity|].
  apply andb_true_iff in Hb. destruct Hb as [Hc Hs].
  destruct (is_decimal c) eqn:D.
  - simpl. eapply IH; eauto.
  - destruct (bound_char_plain c Hc) as (_ & _ & U). rewrite U in H.
    discriminate.
Qed.

(** On a bound, [int] succeeds exactly on the runs of decimal digits. *)
Lemma py_int_bound (b : str) (n : Z) :
  is_bound b = true ->
  py_int b = Returns n ->
  is_number b = true /\ n = number_value b.
Proof.
  intros Hb H. destruct (is_bound_cons b Hb) as (c & b' & -> & Hc & Hb').
  assert (Hall : forallb is_bound_char (c :: b') = true)
    by (simpl; rewrite Hc, Hb'; reflexivity).
  assert (N : is_number (c :: b') = true).
  { unfold py_int in H. rewrite (strip_by_id _ _ (bound_no_space _ Hall)) in H.
    destruct (bound_char_plain c Hc) as (M & P & _). rewrite M, P in H.
    unfold int_unsigned in H. destruct (is_decimal c) eqn:D; [|discriminate].
    destruct (int_digits 0 false (c :: b')) eqn:E; [|discriminate].
    apply (int_digits_bound _ _ _ Hall E). }
  split; [exact N|]. rewrite (py_int_number _ N) in H. congruence.
Qed.

Lemma py_int_outcome (s : str) :
  (exists n, py_int s = Returns n) \/ py_int s = Raises ValueError.
Proof.
  unfold py_int.
  match goal with |- context [match ?r with Some _ => _ | None => _ end] =>
    destruct r end; eauto.
Qed.

Lemma isdigit_bound_number (b : str) :
  is_bound b = true -> isdigit b = true -> is_number b = true.
Proof.
  intros Hb Hd. destruct b as [|c b]; [discriminate|].
  unfold is_bound, isdigit, is_number in *.
  rewrite forallb_forall in *. intros x Hx.
  specialize (Hb x Hx). specialize (Hd x Hx). revert Hb Hd. each_char x.
Qed.

Lemma start_kind_numeric (raw_s : str) :
  start_kind raw_s = Some Numeric -> isdigit raw_s = true.
Proof.
  unfold start_kind. destruct (isdigit raw_s); [reflexivity|].
  destruct (contains ":" raw_s); [discriminate|].
  destruct ((length raw_s =? 1)%nat && isalpha raw_s); discriminate.
Qed.

(** ** Claims about numeric ranges *)

(** C10.  The two range matchers anchor only at the start of the template:
    whatever follows the closing bracket of a well-formed range template
    whose start bound is numeric, a time or a single letter has no effect on
    the outcome of the call, so that it appears in no element. *)
Theorem trailing_text_is_discarded (fuel : nat) (sh : range_shape)
  (k : bound_kind) (tail : str) :
  well_formed sh = true ->
  kind_of sh = Some k ->
  interpret_template_string fuel (render sh ++ tail)
  = interpret_template_string fuel (render sh).
Proof.
  intros Hok Hk. unfold interpret_template_string.
  rewrite <- (app_nil_r (render sh)) at 2.
  destruct sh as [ws1 raw_s raw_e raw_step ws2 | prefix ws raw_s raw_e raw_step];
    cbn [render well_formed kind_of] in *.
  - rewrite !by_bare by assumption. reflexivity.
  - rewrite !(by_prefixed fuel _ _ _ _ _ _ k) by assumption. reflexivity.
Qed.

Lemma trailing_text_is_discarded_witness :
  well_formed (Bare [] "1" "2" None []) = true
  /\ kind_of (Bare [] "1" "2" None []) = Some Numeric
  /\ interpret_template_string 25 (render (Bare [] "1" "2" None []) ++ "tail")
     = interpret_template_string 25 (render (Bare [] "1" "2" None []))
  /\ interpret_template_string 25 "[1...2]tail" = Returns (strs ["1"; "2"]).
Proof.
  split; [reflexivity|]. split; [reflexivity|]. split.
  - apply (trailing_text_is_discarded 25 (Bare [] "1" "2" None []) Numeric "tail");
      reflexivity.
  - vm_compute. reflexivity.
Defined.



Lemma py_int_bound_colon (b : str) :
  is_bound b = true -> In ":"%char b -> py_int b = Raises ValueError.
Proof.
  intros Hb Hin. destruct (py_int_outcome b) as [[n H]|H]; [|exact H].
  destruct (py_int_bound b n Hb H) as [N _].
  apply is_number_forallb in N. rewrite forallb_forall in N.
  specialize (N _ Hin). discriminate.
Qed.

Lemma in_step_suffix (raw_e d : str) : In ":"%char (raw_e ++ step_suffix (Some d)).
Proof. apply in_or_app. right. simpl. auto. Qed.

(** The outcome of the numeric branch of a prefixed range. *)
Lemma prefixed_numeric_outcome (pre raw_s raw_e : str) (out : list str) :
  is_number raw_s = true ->
  is_bound raw_e = true ->
  prefixed_numeric pre raw_s raw_e 1 = Returns out ->
  is_number raw_e = true
  /\ exists r,
      py_range (number_value raw_s) (number_value raw_e + 1) 1 = Returns r
      /\ out = map (fun i => pre ++ zfill (Nat.max (length raw_s) (length raw_e))
                                          (py_str i)) r.
Proof.
  intros Hs He H. unfold prefixed_numeric in H.
  rewrite (py_int_number _ Hs) in H. cbn [bind] in H.
  destruct (py_int_outcome raw_e) as [[n E]|E]; rewrite E in H;
    [|discriminate].
  destruct (py_int_bound _ _ He E) as [N ->]. split; [exact N|].
  cbn [bind] in H.
  destruct (py_range_positive (number_value raw_s) (number_value raw_e + 1) 1
              ltac:(lia)) as (r & Er & _).
  rewrite Er in H. cbn [bind] in H. injection H as <-. eauto.
Qed.

(** C5.  In the expansion of a bare or prefixed numeric range, every element
    is the prefix (none for a bare range) followed by a number written with
    zeros in front, on exactly as many characters as the longer of the two
    boundary tokens of the template; [[01...10]] goes from [01] to [10]. *)
Theorem numeric_range_zero_padding (fuel : nat) (sh : range_shape)
  (out : list str) :
  well_formed sh = true ->
  kind_of sh = Some Numeric ->
  interpret_template_string fuel (render sh) = Returns out ->
  Forall (padded_element (shape_prefix sh)
            (Nat.max (length (start_token sh)) (length (end_token sh)))) out
  /\ interpret_template_string fuel "[01...10]"
     = Returns (strs ["01"; "02"; "03"; "04"; "05"; "06"; "07"; "08"; "09"; "10"]).
Proof.
  intros Hok Hk H. split; [|vm_compute; reflexivity].
  unfold interpret_template_string in H.
  rewrite <- (app_nil_r (render sh)) in H.
  destruct sh as [ws1 raw_s raw_e raw_step ws2 | prefix ws raw_s raw_e raw_step];
    cbn [render well_formed kind_of shape_prefix start_token end_token] in *.
  - rewrite by_bare in H by assumption. cbn [snd] in H.
    unfold bare_ok in Hok. rewrite !andb_true_iff in Hok.
    destruct Hok as [[[[_ Hs] He] Hstep] _].
    assert (Hv : 0 <= step_value raw_step).
    { destruct raw_step as [d|]; simpl; [|lia].
      apply number_value_lt, is_number_forallb, Hstep. }
    destruct (Z.eq_dec (step_value raw_step) 0) as [Z0|NZ].
    { rewrite Z0, py_range_zero in H. discriminate. }
    destruct (py_range_positive (number_value raw_s) (number_value raw_e + 1)
                (step_value raw_step) ltac:(lia)) as (r & Er & Hr & _).
    rewrite Er in H. cbn [bind] in H. injection H as <-.
    exact (numeric_elements [] raw_s raw_e r Hs He Hr).
  - rewrite (by_prefixed fuel _ _ _ _ _ _ Numeric) in H by assumption.
    cbn [snd] in H. cbv zeta in H.
    pose proof (prefixed_ok_step _ _ _ _ _ Hok) as Hok'.
    unfold prefixed_ok in Hok, Hok'. rewrite !andb_true_iff in Hok, Hok'.
    destruct Hok as [[[[_ _] Hs] He] _]. destruct Hok' as [[[[_ _] _] He'] _].
    pose proof (isdigit_bound_number _ Hs (start_kind_numeric _ Hk)) as Ns.
    destruct raw_step as [d|].
    + unfold prefixed_numeric in H. rewrite (py_int_number _ Ns) in H.
      rewrite (py_int_bound_colon _ He' (in_step_suffix raw_e d)) in H.
      discriminate.
    + cbn [step_suffix] in H. rewrite app_nil_r in H.
      destruct (prefixed_numeric_outcome _ _ _ _ Ns He H) as (Ne & r & Er & ->).
      destruct (py_range_positive (number_value raw_s) (number_value raw_e + 1) 1
                  ltac:(lia)) as (r' & Er' & Hr & _).
      rewrite Er in Er'. injection Er' as <-.
      exact (numeric_elements (strip prefix) raw_s raw_e r Ns Ne Hr).
Qed.

Lemma numeric_range_zero_padding_witness :
  well_formed (Prefixed "Room" " " "008" "10" None) = true
  /\ kind_of (Prefixed "Room" " " "008" "10" None) = Some Numeric
  /\ interpret_template_string 25 (render (Prefixed "Room" " " "008" "10" None))
     = Returns (strs ["Room008"; "Room009"; "Room010"])
  /\ Forall (padded_element "Room" 3) (strs ["Room008"; "Room009"; "Room010"]).
Proof.
  split; [reflexivity|]. split; [reflexivity|].
  split; [vm_compute; reflexivity|].
  apply (numeric_range_zero_padding 25 (Prefixed "Room" " " "008" "10" None)
           (strs ["Room008"; "Room009"; "Room010"]));
    vm_compute; reflexivity.
Defined.

(** ** [strptime], [index] and the step token *)








(** What [strptime] accepts for [%H:%M]: digits, a colon, digits. *)
Lemma hm_pattern_shape (s : str) (st : mstate) :
  re_match hm_pattern s = Some st ->
  exists h m,
    s = h ++ ":"%char :: m ++ rest st
    /\ pos st = length (h ++ ":"%char :: m)
    /\ group_str 1 st = h /\ group_str 2 st = m
    /\ parses (Alt (Seq (Lit "2") (Cls (between 48 51)))
                 (Alt (Seq (Cls (between 48 49)) (Cls is_decimal))
                      (Cls is_decimal))) h [] []
    /\ parses (Alt (Seq (Cls (between 48 53)) (Cls is_decimal))
                   (Cls is_decimal)) m [(1%nat, h)] [(1%nat, h)].
Proof.
  intros H. destruct (re_match_sound _ _ _ H) as (w & -> & Hpos & P).
  unfold hm_pattern, Cat in P. cbn [fold_right] in P.
  cbn [parses] in P.
  destruct P as (h & w2 & cm & -> & (cm0 & Ph & ->) & P).
  destruct P as (w3 & w4 & cm2 & -> & [-> ->] & P).
  destruct P as (m & w6 & cm3 & -> & (cm4 & Pm & ->) & [-> Q]).
  assert (C0 : cm0 = []).
  { clear - Ph.
    destruct Ph as [(? & ? & ? & _ & [_ ->] & (? & _ & _ & ->))
                   |[(? & ? & ? & _ & (? & _ & _ & ->) & (? & _ & _ & ->))
                    |(? & _ & _ & ->)]]; reflexivity. }
  subst cm0.
  assert (C4 : cm4 = [(1%nat, h)]).
  { clear - Pm.
    destruct Pm as [(? & ? & ? & _ & (? & _ & _ & ->) & (? & _ & _ & ->))
                   |(? & _ & _ & ->)]; reflexivity. }
  subst cm4.
  exists h, m. rewrite app_nil_r in *.
  split; [rewrite <- !app_assoc; reflexivity|].
  split; [exact Hpos|].
  split; [unfold group_str, group; rewrite Q; reflexivity|].
  split; [unfold group_str, group; rewrite Q; reflexivity|].
  split; [exact Ph|exact Pm].
Qed.

Lemma between_digit_val (lo hi : nat) (c : ascii) :
  (48 <= lo)%nat -> (hi <= 57)%nat -> between lo hi c = true ->
  is_decimal c = true
  /\ Z.of_nat lo - 48 <= digit_val c <= Z.of_nat hi - 48.
Proof.
  unfold between, is_decimal, between, digit_val. intros Hlo Hhi H.
  apply andb_true_iff in H. destruct H as [H1 H2].
  apply Nat.leb_le in H1. apply Nat.leb_le in H2. split; [|lia].
  apply andb_true_iff. split; apply Nat.leb_le; lia.
Qed.

Lemma number_value_two (c1 c2 : ascii) :
  number_value [c1; c2] = 10 * digit_val c1 + digit_val c2.
Proof. unfold number_value. cbn [fold_left]. lia. Qed.

Lemma number_value_one (c : ascii) : number_value [c] = digit_val c.
Proof. unfold number_value. cbn [fold_left]. lia. Qed.

Lemma hour_parse (h : str) (cs cs' : list (nat * str)) :
  parses (Alt (Seq (Lit "2") (Cls (between 48 51)))
            (Alt (Seq (Cls (between 48 49)) (Cls is_decimal))
                 (Cls is_decimal))) h cs cs' ->
  is_number h = true /\ 0 <= number_value h <= 23.
Proof.
  cbn [parses].
  intros [(w1 & w2 & cm & -> & [-> _] & (c & -> & Hc & _))
         |[(w1 & w2 & cm & -> & (c1 & -> & Hc1 & _) & (c2 & -> & Hc2 & _))
          |(c & -> & Hc & _)]].
  - destruct (between_digit_val 48 51 c) as [D B]; [lia|lia|assumption|].
    cbn [app]. rewrite number_value_two. split.
    + cbn [is_number forallb]. rewrite D. reflexivity.
    + change (digit_val "2") with 2. lia.
  - destruct (between_digit_val 48 49 c1) as [D1 B1]; [lia|lia|assumption|].
    destruct (between_digit_val 48 57 c2) as [D2 B2]; [lia|lia|assumption|].
    cbn [app]. rewrite number_value_two. split.
    + cbn [is_number forallb]. rewrite D1, D2. reflexivity.
    + lia.
  - destruct (between_digit_val 48 57 c) as [D B]; [lia|lia|assumption|].
    rewrite number_value_one. split.
    + cbn [is_number forallb]. rewrite D. reflexivity.
    + lia.
Qed.

Lemma minute_parse (m : str) (cs cs' : list (nat * str)) :
  parses (Alt (Seq (Cls (between 48 53)) (Cls is_decimal))
              (Cls is_decimal)) m cs cs' ->
  is_number m = true /\ 0 <= number_value m <= 59.
Proof.
  cbn [parses].
  intros [(w1 & w2 & cm & -> & (c1 & -> & Hc1 & _) & (c2 & -> & Hc2 & _))
         |(c & -> & Hc & _)].
  - destruct (between_digit_val 48 53 c1) as [D1 B1]; [lia|lia|assumption|].
    destruct (between_digit_val 48 57 c2) as [D2 B2]; [lia|lia|assumption|].
    cbn [app]. rewrite number_value_two. split.
    + cbn [is_number forallb]. rewrite D1, D2. reflexivity.
    + lia.
  - destruct (between_digit_val 48 57 c) as [D B]; [lia|lia|assumption|].
    rewrite number_value_one. split.
    + cbn [is_number forallb]. rewrite D. reflexivity.
    + lia.
Qed.

(** [strptime] either raises [ValueError] or returns a minute of the day,
    read from digits, one colon, digits. *)
Lemma strptime_HM_returns (s : str) (d : datetime) :
  strptime_HM s = Returns d ->
  0 <= d <= 1439
  /\ exists h m, s = h ++ ":"%char :: m
                 /\ forallb is_decimal h = true /\ forallb is_decimal m = true.
Proof.
  unfold strptime_HM. destruct (re_match hm_pattern s) as [st|] eqn:E;
    [|discriminate].
  destruct (hm_pattern_shape _ _ E) as (h & m & Es & Hpos & G1 & G2 & Ph & Pm).
  destruct (hour_parse _ _ _ Ph) as [Nh Bh].
  destruct (minute_parse _ _ _ Pm) as [Nm Bm].
  destruct (Nat.eqb_spec (length s) (pos st)) as [L|L]; cbn [negb];
    [|discriminate].
  rewrite G1, G2, (py_int_number _ Nh), (py_int_number _ Nm). cbn [bind].
  intros H.
  assert (Hd : d = 60 * number_value h + number_value m).
  { apply (f_equal (fun o => match o with Returns x => x | _ => 0 end)) in H.
    symmetry. exact H. }
  clear H. split; [lia|].
  exists h, m. split; [|split; apply is_number_forallb; assumption].
  assert (R : rest st = []).
  { apply (f_equal (@length ascii)) in Es.
    rewrite L, Hpos in Es.
    change (h ++ ":"%char :: m ++ rest st)
      with (h ++ (":"%char :: m) ++ rest st) in Es.
    rewrite !length_app in Es. cbn [length] in Es.
    rewrite ?length_app in Es.
    destruct (rest st); [reflexivity|]. cbn [length] in Es. lia. }
  rewrite R, app_nil_r in Es. exact Es.
Qed.





Lemma start_kind_time (raw_s : str) :
  start_kind raw_s = Some Time -> contains ":" raw_s = true.
Proof.
  unfold start_kind. destruct (isdigit raw_s); [discriminate|].
  destruct (contains ":" raw_s); [reflexivity|].
  destruct ((length raw_s =? 1)%nat && isalpha raw_s); discriminate.
Qed.



(** ** The step group of the prefixed pattern never takes part in a match *)









(** ** Termination *)


















(** ** The dispatcher *)




(** ** Grid templates: finding and replacing the brace groups *)

Lemma star_lazy_run (p : ascii -> bool) (k : cont) (w s : str) :
  forall ps cs x,
    forallb p w = true ->
    (forall w1 c w2, w = w1 ++ c :: w2 ->
                     k (MState (ps + length w1) (c :: w2 ++ s) cs) = None) ->
    k (MState (ps + length w) s cs) = Some x ->
    star_lazy p k ps cs (w ++ s) = Some x.
Proof.
  induction w as [|c w IH]; intros ps cs x Hw Hk Hx.
  - simpl in *. rewrite Nat.add_0_r in Hx.
    destruct s; simpl; rewrite Hx; reflexivity.
  - simpl in Hw. apply andb_true_iff in Hw. destruct Hw as [Hc Hw].
    cbn [app star_lazy].
    pose proof (Hk [] c w eq_refl) as H0. simpl in H0.
    rewrite Nat.add_0_r in H0. rewrite H0, Hc.
    apply IH; auto.
    + intros w1 c' w2 E. specialize (Hk (c :: w1) c' w2).
      rewrite E in Hk. specialize (Hk eq_refl). rewrite <- Hk.
      f_equal. f_equal. simpl. lia.
    + rewrite <- Hx. f_equal. f_equal. simpl. lia.
Qed.

Lemma inside_braces_split (g w1 w2 : str) (c : ascii) :
  inside_braces g = true -> g = w1 ++ c :: w2 -> "}"%char <> c.
Proof.
  intros H -> <-. unfold inside_braces in H. rewrite forallb_app in H.
  apply andb_true_iff in H. destruct H as [_ H]. cbn [forallb] in H.
  rewrite Ascii.eqb_refl in H. cbn [negb] in H.
  rewrite andb_false_r in H. discriminate.
Qed.

Lemma inside_braces_dot (g : str) :
  inside_braces g = true -> forallb is_dot g = true.
Proof.
  apply forallb_imp. intros c H. apply andb_true_iff in H. tauto.
Qed.

Lemma rmatch_Cat_Lit (c : ascii) (k : cont) (st : mstate) :
  rmatch (Cat [Lit c]) k st
  = match rest st with
    | c' :: s' =>
        if Ascii.eqb c c' then k (MState (S (pos st)) s' (caps st)) else None
    | [] => None
    end.
Proof. reflexivity. Qed.

(** The pattern of line 75 on a brace group. *)
Lemma brace_group_pattern_match (g s : str) (ps : nat) :
  inside_braces g = true ->
  rmatch brace_group_pattern Some (MState ps ("{"%char :: g ++ "}"%char :: s) [])
  = Some (MState (S (S (ps + length g))) s [(1%nat, g)]).
Proof.
  intros Hg. unfold brace_group_pattern.
  rewrite rmatch_Cat_cons, rmatch_Lit_hit, rmatch_Cat_cons.
  change (rmatch (Grp 1 (StarLazy is_dot)) ?k ?st0)
    with (rmatch (StarLazy is_dot) (fun st' => k (close_group 1 st0 st')) st0).
  cbn [rmatch pos rest caps].
  apply star_lazy_run.
  - apply inside_braces_dot, Hg.
  - intros w1 c w2 E. rewrite rmatch_Cat_Lit.
    cbn [close_group rest]. 
    destruct (Ascii.eqb_spec "}" c) as [F|F]; [|reflexivity].
    exfalso. exact (inside_braces_split _ _ _ _ Hg E F).
  - rewrite rmatch_Cat_Lit. cbn [close_group rest pos caps].
    rewrite firstn_exact by lia. reflexivity.
Qed.


(** Both patterns start with an opening brace. *)
Lemma brace_patterns_miss (s : str) (ps : nat) :
  match s with [] => True | c :: _ => "{"%char <> c end ->
  rmatch brace_group_pattern Some (MState ps s []) = None
  /\ rmatch brace_pattern Some (MState ps s []) = None.
Proof.
  intros H. unfold brace_group_pattern, brace_pattern.
  rewrite !rmatch_Cat_cons. split; apply rmatch_Lit_miss; exact H.
Qed.

Lemma no_open_head (c : ascii) (lit : str) :
  no_open (c :: lit) = true -> "{"%char <> c /\ no_open lit = true.
Proof.
  unfold no_open. cbn [forallb]. intros H. apply andb_true_iff in H.
  destruct H as [Hc Hl]. split; [|exact Hl].
  intros <-. discriminate.
Qed.

Lemma scan_skip (r : regex) (w s : str) :
  forall ps, scan r (length w) ps (w ++ s) = scan r O (ps + length w) s.
Proof.
  induction w as [|c w IH]; intros ps; cbn [length app].
  - rewrite Nat.add_0_r. reflexivity.
  - cbn [scan]. rewrite IH. f_equal. lia.
Qed.

Lemma scan_literal (lit s : str) :
  forall ps,
    no_open lit = true ->
    match s with [] => False | _ => True end ->
    scan brace_group_pattern O ps (lit ++ s)
    = scan brace_group_pattern O (ps + length lit) s.
Proof.
  induction lit as [|c lit IH]; intros ps Hl Hs; cbn [length app].
  - rewrite Nat.add_0_r. reflexivity.
  - destruct (no_open_head _ _ Hl) as [Hc Hl'].
    cbn [scan].
    destruct (brace_patterns_miss (c :: lit ++ s) ps Hc) as [-> _].
    rewrite IH by assumption. f_equal. lia.
Qed.

Lemma scan_literal_end (lit : str) :
  forall ps, no_open lit = true -> scan brace_group_pattern O ps lit = [].
Proof.
  induction lit as [|c lit IH]; intros ps Hl.
  - reflexivity.
  - destruct (no_open_head _ _ Hl) as [Hc Hl'].
    cbn [scan].
    destruct (brace_patterns_miss (c :: lit) ps Hc) as [-> _].
    apply IH, Hl'.
Qed.

Lemma scan_brace_group (g s : str) (ps : nat) :
  inside_braces g = true ->
  scan brace_group_pattern O ps ("{"%char :: g ++ "}"%char :: s)
  = (ps, MState (S (S (ps + length g))) s [(1%nat, g)])
      :: scan brace_group_pattern O (S (S (ps + length g))) s.
Proof.
  intros Hg. cbn [scan]. rewrite (brace_group_pattern_match g s ps Hg).
  f_equal. cbn [pos].
  replace (S (S (ps + length g)) - ps - 1)%nat
    with (length (g ++ ["}"%char])) by (rewrite length_app; cbn [length]; lia).
  change (g ++ "}"%char :: s) with (g ++ ["}"%char] ++ s).
  rewrite app_assoc, scan_skip. f_equal.
  rewrite length_app. cbn [length]. lia.
Qed.







(** ** [itertools.product] is the Cartesian product, last axis fastest *)







(** ** The values of an axis hold no brace *)















(** ** The filter *)

Lemma fragment_eval_extends : extends fragment_eval.
Proof. intros e text o H. unfold fragment_eval. rewrite H. reflexivity. Qed.

(** Replaces a call of the evaluator on a text of the fragment by the
    answer of the model. *)
Ltac by_fragment Hext :=
  match goal with
  | |- context [?ev ?e ?t] =>
      match type of Hext with
      | extends ev =>
          let a := eval vm_compute in (py_eval e t) in
          match a with
          | Some ?o =>
              let H := fresh "H" in
              assert (H : py_eval e t = Some o) by (vm_compute; reflexivity);
              rewrite (Hext e t o H); clear H
          end
      end
  end.

(** Replaces a closed term by its value. *)
Ltac value_of t :=
  let x := eval vm_compute in t in
  replace t with x by (vm_compute; reflexivity).

Ltac run_filter Hext :=
  repeat (cbn [remove_loop preview_loop loop_env bind truthy negb Z.eqb];
          try by_fragment Hext).

(** C8.  With the ordinal of each element bound to [i], the filter
    [i % 2 == 0] keeps, of the six elements of the expansion of [[1...6]],
    the second, the fourth and the sixth, in that order: whatever the other
    names visible to [eval] are, and for any evaluator that agrees with the
    modelled fragment of Python. *)
Theorem even_filter_keeps_2_4_6 (ev : evaluator) (fuel : nat) (ambient : env) :
  extends ev ->
  interpret_template_string fuel "[1...6]"
  = Returns (strs ["1"; "2"; "3"; "4"; "5"; "6"])
  /\ remove_loop ev ambient (Some (list_ascii_of_string "i % 2 == 0")) 1
       (strs ["1"; "2"; "3"; "4"; "5"; "6"])
     = Returns [(2, list_ascii_of_string "2"); (4, list_ascii_of_string "4");
                (6, list_ascii_of_string "6")]
  /\ remove_targets ev fuel ambient "[1...6, if i % 2 == 0]"
     = Returns (strs ["2"; "4"; "6"])
  /\ preview_template ev fuel ambient "[1...6], if i % 2 == 0"
     = Returns (PreviewOf (strs ["2"; "4"; "6"])).
Proof.
  intros Hext.
  assert (E : interpret_template_string fuel "[1...6]"
              = Returns (strs ["1"; "2"; "3"; "4"; "5"; "6"]))
    by (vm_compute; reflexivity).
  assert (L : remove_loop ev ambient (Some (list_ascii_of_string "i % 2 == 0")) 1
                (strs ["1"; "2"; "3"; "4"; "5"; "6"])
              = Returns [(2, list_ascii_of_string "2");
                         (4, list_ascii_of_string "4");
                         (6, list_ascii_of_string "6")]).
  { cbn [strs map list_ascii_of_string]. run_filter Hext. reflexivity. }
  split; [exact E|]. split; [exact L|]. split.
  - unfold remove_targets.
    value_of (split_condition "[1...6, if i % 2 == 0]").
    change (interpret_template_string fuel
              ["["; "1"; "."; "."; "."; "6"; "]"]%char)
      with (interpret_template_string fuel "[1...6]").
    rewrite E. cbn [bind].
    change (Some ["i"; " "; "%"; " "; "2"; " "; "="; "="; " "; "0"]%char)
      with (Some (list_ascii_of_string "i % 2 == 0")).
    rewrite L. reflexivity.
  - unfold preview_template, preview_list.
    value_of (contains "if" "[1...6], if i % 2 == 0"). cbv iota.
    value_of (strip (sub if_suffix_pattern [] "[1...6], if i % 2 == 0")).
    change (interpret_template_string fuel
              ["["; "1"; "."; "."; "."; "6"; "]"]%char)
      with (interpret_template_string fuel "[1...6]").
    rewrite E. cbn [bind].
    match goal with
    | |- context [preview_loop _ _ ?x _ _] => value_of x
    end.
    cbn [strs map list_ascii_of_string]. run_filter Hext. reflexivity.
Qed.

Lemma even_filter_keeps_2_4_6_witness :
  extends fragment_eval
  /\ remove_targets fragment_eval 25 [] "[1...6, if i % 2 == 0]"
     = Returns (strs ["2"; "4"; "6"]).
Proof.
  split; [exact fragment_eval_extends|].
  apply (even_filter_keeps_2_4_6 fragment_eval 25 [] fragment_eval_extends).
Defined.

(** C6 holds for the filter of [remove_channels] and fails for the one of
    [preview_template].  On the predicate [6 // (i - 3) < 9], whose
    evaluation raises [ZeroDivisionError] at the third element only,
    [remove_channels] drops that element and keeps going, while
    [preview_template] loses the whole preview and answers with the error. *)
Theorem preview_surfaces_filter_failure (ev : evaluator) (fuel : nat)
  (ambient : env) :
  extends ev ->
  remove_targets ev fuel ambient "[1...6, if 6 // (i - 3) < 9]"
  = Returns (strs ["1"; "2"; "4"; "5"; "6"])
  /\ preview_template ev fuel ambient "[1...6], if 6 // (i - 3) < 9"
     = Returns (ErrorReply ZeroDivisionError).
Proof.
  intros Hext.
  assert (E : interpret_template_string fuel "[1...6]"
              = Returns (strs ["1"; "2"; "3"; "4"; "5"; "6"]))
    by (vm_compute; reflexivity).
  split.
  - unfold remove_targets.
    value_of (split_condition "[1...6, if 6 // (i - 3) < 9]").
    change (interpret_template_string fuel
              ["["; "1"; "."; "."; "."; "6"; "]"]%char)
      with (interpret_template_string fuel "[1...6]").
    rewrite E. cbn [bind strs map list_ascii_of_string].
    run_filter Hext. reflexivity.
  - unfold preview_template, preview_list.
    value_of (contains "if" "[1...6], if 6 // (i - 3) < 9"). cbv iota.
    value_of (strip (sub if_suffix_pattern [] "[1...6], if 6 // (i - 3) < 9")).
    change (interpret_template_string fuel
              ["["; "1"; "."; "."; "."; "6"; "]"]%char)
      with (interpret_template_string fuel "[1...6]").
    rewrite E. cbn [bind].
    match goal with
    | |- context [preview_loop _ _ ?x _ _] => value_of x
    end.
    cbn [strs map list_ascii_of_string]. run_filter Hext. reflexivity.
Qed.

Lemma preview_surfaces_filter_failure_witness :
  extends fragment_eval
  /\ preview_template fragment_eval 25 [] "[1...6], if 6 // (i - 3) < 9"
     = Returns (ErrorReply ZeroDivisionError).
Proof.
  split; [exact fragment_eval_extends|].
  apply (preview_surfaces_filter_failure fragment_eval 25 []
           fragment_eval_extends).
Defined.

(** ** What the filter reads *)











(** * Further properties of the code *)

(** ** Literal lists and passthrough *)

Lemma parses_requires (c : ascii) (r : regex) :
  forall w cs cs', requires c r = true -> parses r w cs cs' -> In c w.
Proof.
  induction r as [ |c'|p|r1 IH1 r2 IH2|r1 IH1 r2 IH2|p|p|r1 IH1|n r1 IH1| | ];
    intros w cs cs' R P; cbn [requires] in R; try discriminate; cbn [parses] in P.
  - destruct P as [-> _]. apply eqb_char_eq in R. left. auto.
  - destruct P as (w1 & w2 & cm & -> & P1 & P2). apply in_or_app.
    apply orb_true_iff in R. destruct R as [R|R]; [left|right]; eauto.
  - apply andb_true_iff in R. destruct R as [R1 R2].
    destruct P as [P|P]; eauto.
  - destruct P as (cm & P & _). eauto.
Qed.

Lemma lacks_not_in (c : ascii) (s : str) : lacks c s = true -> ~ In c s.
Proof.
  unfold lacks. rewrite forallb_forall. intros H Hin.
  specialize (H c Hin). rewrite Ascii.eqb_refl in H. discriminate.
Qed.

(** Both range patterns hold the three dots. *)
Lemma range_matchers_need_dot (fuel : nat) (s : str) :
  lacks "." s = true ->
  bare_numeric s = None /\ prefixed_range fuel s = None.
Proof.
  intros H. apply lacks_not_in in H. unfold bare_numeric, prefixed_range. split.
  - destruct (re_match bare_pattern s) as [st|] eqn:E; [|reflexivity].
    exfalso. apply H. destruct (re_match_sound _ _ _ E) as (w & -> & _ & P).
    apply in_or_app. left. eapply parses_requires; [|exact P]. reflexivity.
  - destruct (re_match prefixed_pattern s) as [st|] eqn:E; [|reflexivity].
    exfalso. apply H. destruct (re_match_sound _ _ _ E) as (w & -> & _ & P).
    apply in_or_app. left. eapply parses_requires; [|exact P]. reflexivity.
Qed.

(** Both range patterns start with an opening bracket. *)
Lemma range_matchers_need_bracket (fuel : nat) (s : str) :
  startswith "[" s = false ->
  bare_numeric s = None /\ prefixed_range fuel s = None.
Proof.
  intros H.
  assert (M : match s with [] => True | c :: _ => "["%char <> c end).
  { destruct s as [|c s]; [exact I|]. intros <-. discriminate. }
  unfold bare_numeric, prefixed_range, re_match, bare_pattern, prefixed_pattern.
  rewrite !rmatch_Cat_cons, !(rmatch_Lit_miss "[" _ s O [] M). auto.
Qed.

Lemma grid_without_brace (s : str) : no_open s = true -> grid s = None.
Proof.
  intros H. unfold grid, findall, finditer.
  rewrite scan_literal_end by assumption. reflexivity.
Qed.

(** X1.  Passthrough: a template that does not start with an opening bracket
    and holds no opening brace is returned as it is, alone. *)
Theorem unbracketed_text_is_passed_through (fuel : nat) (format_str : str) :
  startswith "[" format_str = false ->
  no_open format_str = true ->
  interpret_template_string_by fuel format_str
  = (Passthrough, Returns [format_str]).
Proof.
  intros Hb Ho. unfold interpret_template_string_by.
  destruct (range_matchers_need_bracket fuel format_str Hb) as [-> ->].
  rewrite (grid_without_brace _ Ho). unfold literal_list. rewrite Hb.
  reflexivity.
Qed.

Lemma unbracketed_text_is_passed_through_witness :
  startswith "[" "general chat" = false
  /\ no_open "general chat" = true
  /\ interpret_template_string_by 0 "general chat"
     = (Passthrough, Returns (strs ["general chat"])).
Proof.
  split; [reflexivity|]. split; [reflexivity|].
  apply (unbracketed_text_is_passed_through 0 "general chat"); reflexivity.
Defined.

(** ** [split] and [join] *)

Lemma startswith_comma (c : ascii) (s : str) :
  negb (Ascii.eqb c ",") = true -> startswith "," (c :: s) = false.
Proof.
  intros H. apply negb_true_iff in H.
  change (startswith "," (c :: s)) with (Ascii.eqb "," c && true).
  rewrite Ascii.eqb_sym, H. reflexivity.
Qed.

Lemma split_go_plain (s : str) :
  forall acc,
    lacks "," s = true -> split_go "," acc O s = [rev acc ++ s].
Proof.
  induction s as [|c s IH]; intros acc H.
  - cbn [split_go]. rewrite app_nil_r. reflexivity.
  - unfold lacks in H. cbn [forallb] in H. apply andb_true_iff in H.
    destruct H as [Hc Hs]. cbn [split_go].
    rewrite (startswith_comma c s Hc), IH by exact Hs.
    cbn [rev]. rewrite <- app_assoc. reflexivity.
Qed.

Lemma split_go_item (x s : str) :
  forall acc,
    lacks "," x = true ->
    split_go "," acc O (x ++ "," ++ s) = (rev acc ++ x) :: split_go "," [] O s.
Proof.
  induction x as [|c x IH]; intros acc H.
  - cbn [app list_ascii_of_string]. cbn [split_go].
    change (startswith "," ("," ++ s)) with true. cbv iota.
    cbn [length Nat.sub list_ascii_of_string]. rewrite app_nil_r. reflexivity.
  - unfold lacks in H. cbn [forallb] in H. apply andb_true_iff in H.
    destruct H as [Hc Hx]. cbn [app split_go].
    rewrite (startswith_comma c _ Hc), IH by exact Hx.
    cbn [rev]. rewrite <- app_assoc. reflexivity.
Qed.

(** Splitting what was joined gives the items back. *)
Lemma split_join (items : list str) :
  items <> [] ->
  forallb (lacks ",") items = true ->
  split "," (join "," items) = items.
Proof.
  unfold split. induction items as [|x items IH]; intros Hne H; [contradiction|].
  cbn [forallb] in H. apply andb_true_iff in H. destruct H as [Hx Hi].
  destruct items as [|y items].
  - cbn [join]. rewrite split_go_plain by exact Hx. reflexivity.
  - change (join "," (x :: y :: items)) with (x ++ "," ++ join "," (y :: items)).
    rewrite split_go_item by exact Hx. cbn [rev app].
    rewrite IH; [reflexivity|discriminate|exact Hi].
Qed.

Lemma lacks_app (c : ascii) (a b : str) :
  lacks c (a ++ b) = lacks c a && lacks c b.
Proof. apply forallb_app. Qed.

Lemma join_lacks (c : ascii) (items : list str) :
  lacks c "," = true ->
  forallb (lacks c) items = true -> lacks c (join "," items) = true.
Proof.
  intros Hsep. induction items as [|x items IH]; intros H; [reflexivity|].
  cbn [forallb] in H. apply andb_true_iff in H. destruct H as [Hx Hi].
  destruct items as [|y items]; [exact Hx|].
  change (join "," (x :: y :: items)) with (x ++ "," ++ join "," (y :: items)).
  rewrite !lacks_app, Hx, Hsep, IH by exact Hi. reflexivity.
Qed.

Lemma plain_items (items : list str) :
  forallb plain_item items = true ->
  forallb (lacks ",") items = true
  /\ forallb (lacks ".") items = true
  /\ forallb (lacks "{") items = true.
Proof.
  induction items as [|x items IH]; intros H; [auto|].
  cbn [forallb] in H. apply andb_true_iff in H. destruct H as [Hx Hi].
  unfold plain_item in Hx. rewrite !andb_true_iff in Hx.
  destruct Hx as [[H1 H2] H3]. destruct (IH Hi) as (I1 & I2 & I3).
  cbn [forallb]. rewrite H1, H2, I1, I2, I3.
  unfold no_open in H3. unfold lacks at 1. rewrite H3. auto.
Qed.

Lemma bracketed_edges (x : str) :
  startswith "[" ("[" ++ x ++ "]") = true
  /\ endswith "]" ("[" ++ x ++ "]") = true
  /\ slice_1_m1 ("[" ++ x ++ "]") = x.
Proof.
  split; [reflexivity|]. split.
  - unfold endswith. cbn [app list_ascii_of_string rev].
    rewrite rev_app_distr. reflexivity.
  - unfold slice_1_m1. cbn [app list_ascii_of_string tl].
    apply removelast_last.
Qed.

(** The dispatcher on a bracketed text without dot nor opening brace: the
    range and grid matchers pass. *)
Lemma bracketed_plain_dispatch (fuel : nat) (x : str) :
  lacks "." x = true -> lacks "{" x = true ->
  interpret_template_string_by fuel ("[" ++ x ++ "]")
  = match literal_list ("[" ++ x ++ "]") with
    | Some parts => (LiteralList, Returns parts)
    | None => (Passthrough, Returns ["[" ++ x ++ "]"])
    end.
Proof.
  intros Hd Hb. unfold interpret_template_string_by.
  assert (D : lacks "." ("[" ++ x ++ "]") = true)
    by (rewrite !lacks_app, Hd; reflexivity).
  assert (B : no_open ("[" ++ x ++ "]") = true).
  { unfold no_open. fold (lacks "{" ("[" ++ x ++ "]")).
    rewrite !lacks_app, Hb. reflexivity. }
  destruct (range_matchers_need_dot fuel _ D) as [-> ->].
  rewrite (grid_without_brace _ B). reflexivity.
Qed.

(** X2.  A literal list: a bracketed template of two items or more, without
    dot nor opening brace, expands to its items in order, each without the
    blanks around it. *)
Theorem literal_list_gives_stripped_items (fuel : nat) (x y : str)
  (items : list str) :
  forallb plain_item (x :: y :: items) = true ->
  interpret_template_string_by fuel ("[" ++ join "," (x :: y :: items) ++ "]")
  = (LiteralList, Returns (map strip (x :: y :: items))).
Proof.
  intros H. destruct (plain_items _ H) as (Hc & Hd & Hb).
  rewrite bracketed_plain_dispatch;
    [|apply join_lacks; [reflexivity|assumption] ..].
  unfold literal_list.
  destruct (bracketed_edges (join "," (x :: y :: items))) as (-> & -> & ->).
  rewrite split_join; [reflexivity|discriminate|assumption].
Qed.

Lemma literal_list_gives_stripped_items_witness :
  forallb plain_item (strs ["Room"; " Hall"; " Gym "]) = true
  /\ interpret_template_string_by 0 "[Room, Hall, Gym ]"
     = (LiteralList, Returns (strs ["Room"; "Hall"; "Gym"])).
Proof.
  split; [reflexivity|].
  apply (literal_list_gives_stripped_items 0 "Room" " Hall" [list_ascii_of_string " Gym "]).
  reflexivity.
Defined.

(** X3.  A single bracketed token, without comma, dot nor opening brace, is
    no list: it is passed through with its brackets. *)
Theorem single_bracketed_token_keeps_brackets (fuel : nat) (x : str) :
  plain_item x = true ->
  interpret_template_string_by fuel ("[" ++ x ++ "]")
  = (Passthrough, Returns ["[" ++ x ++ "]"]).
Proof.
  intros H. unfold plain_item in H. rewrite !andb_true_iff in H.
  destruct H as [[Hc Hd] Hb].
  rewrite bracketed_plain_dispatch; [|assumption ..].
  unfold literal_list.
  destruct (bracketed_edges x) as (-> & -> & ->).
  unfold split. rewrite split_go_plain by assumption. reflexivity.
Qed.

Lemma single_bracketed_token_keeps_brackets_witness :
  plain_item "lobby" = true
  /\ interpret_template_string_by 0 "[lobby]"
     = (Passthrough, Returns (strs ["[lobby]"])).
Proof.
  split; [reflexivity|].
  apply (single_bracketed_token_keeps_brackets 0 "lobby"). reflexivity.
Defined.

(** ** Brace groups that are no range *)

Lemma split_go_absent (sep s : str) :
  forall acc, find sep s = None -> split_go sep acc O s = [rev acc ++ s].
Proof.
  induction s as [|c s IH]; intros acc H.
  - cbn [split_go]. rewrite app_nil_r. reflexivity.
  - cbn [find] in H. cbn [split_go].
    destruct (startswith sep (c :: s)); [discriminate|].
    destruct (find sep s); [discriminate|].
    rewrite IH by reflexivity. cbn [rev]. rewrite <- app_assoc. reflexivity.
Qed.

(** X4.  A brace group without three dots in a row stops the call: it raises
    [ValueError], whatever comes after the group. *)
Theorem brace_group_without_dots_is_rejected (fuel : nat)
  (lit0 g tail : str) :
  no_open lit0 = true ->
  inside_braces g = true ->
  find "..." g = None ->
  bare_numeric (lit0 ++ "{" ++ g ++ "}" ++ tail) = None ->
  prefixed_range fuel (lit0 ++ "{" ++ g ++ "}" ++ tail) = None ->
  interpret_template_string_by fuel (lit0 ++ "{" ++ g ++ "}" ++ tail)
  = (Grid, Raises ValueError).
Proof.
  intros H0 Hg Hf B P. unfold interpret_template_string_by. rewrite B, P.
  unfold grid, findall, finditer.
  cbn [app list_ascii_of_string].
  rewrite scan_literal; [|assumption|exact I].
  rewrite scan_brace_group by assumption. cbn [map snd].
  unfold group_str, group. cbn [caps lookup Nat.eqb mapM].
  unfold axis, split. rewrite split_go_absent by assumption. reflexivity.
Qed.

Lemma brace_group_without_dots_is_rejected_witness :
  no_open "Room" = true /\ inside_braces "1" = true /\ find "..." "1" = None
  /\ interpret_template_string_by 0 "Room{1}" = (Grid, Raises ValueError).
Proof.
  split; [reflexivity|]. split; [reflexivity|]. split; [reflexivity|].
  apply (brace_group_without_dots_is_rejected 0 "Room" "1" []);
    vm_compute; reflexivity.
Defined.

(** ** Prefixed ranges *)



(** ** Time-of-day ranges *)

Lemma hour_count_next (s e : Z) (n : nat) :
  hour_count s e = S n -> s <= e /\ hour_count (s + 60) e = n.
Proof.
  unfold hour_count. destruct (Z.leb_spec s e) as [L|L]; [|discriminate].
  intros H. split; [exact L|].
  destruct (Z.leb_spec (s + 60) e) as [L'|L'].
  - replace (e - (s + 60)) with ((e - s) + (-1) * 60) by lia.
    rewrite Z.div_add by lia.
    assert (0 <= (e - s) / 60) by (apply Z.div_pos; lia). lia.
  - assert (Q : (e - s) / 60 = 0) by (apply Z.div_small; lia).
    rewrite Q in H. simpl in H. lia.
Qed.

Lemma time_loop_hours (n : nat) :
  forall fuel pre s e out,
    hour_count s e = n ->
    (n < fuel)%nat ->
    e + 60 <= datetime_max ->
    time_loop fuel pre s e 1 out
    = Returns (out ++ map (fun k => pre ++ strftime_HM (s + 60 * Z.of_nat k))
                          (seq O n)).
Proof.
  induction n as [|n IH]; intros fuel pre s e out Hn Hf Hmax;
    destruct fuel as [|fuel]; try lia; cbn [time_loop].
  - unfold hour_count in Hn. destruct (Z.leb_spec s e) as [L|L].
    + assert (0 <= (e - s) / 60) by (apply Z.div_pos; lia). lia.
    + cbn [seq map]. rewrite app_nil_r. reflexivity.
  - destruct (hour_count_next _ _ _ Hn) as [L Hn'].
    destruct (Z.leb_spec s e) as [_|]; [|lia].
    unfold add_hours. destruct (Z.ltb_spec datetime_max (s + 60 * 1)); [lia|].
    cbn [bind]. replace (s + 60 * 1) with (s + 60) by lia.
    rewrite (IH fuel pre (s + 60) e _ Hn') by lia.
    rewrite <- app_assoc. f_equal. cbn [seq map app].
    replace (s + 60 * Z.of_nat 0) with s by lia.
    rewrite <- seq_shift, map_map.
    apply (f_equal (app out)), (f_equal (cons _)).
    apply map_ext. intros k.
    replace (s + 60 * Z.of_nat (S k)) with (s + 60 + 60 * Z.of_nat k) by lia.
    reflexivity.
Qed.

Lemma hour_count_day (s e : Z) :
  0 <= s -> e <= 1439 -> (hour_count s e <= 24)%nat.
Proof.
  intros Hs He. unfold hour_count. destruct (Z.leb_spec s e); [|lia].
  assert ((e - s) / 60 < 24) by (apply Z.div_lt_upper_bound; lia).
  assert (0 <= (e - s) / 60) by (apply Z.div_pos; lia). lia.
Qed.

(** X6.  A time-of-day range goes from the start time by whole hours, the
    minutes of the start kept, up to the end time included when an hour
    falls on it; it has no element when the start is after the end, and
    never more than 24. *)
Theorem time_range_goes_by_hours (fuel : nat) (prefix ws raw_s raw_e : str)
  (s e : Z) :
  (25 <= fuel)%nat ->
  prefixed_ok prefix ws raw_s raw_e None = true ->
  start_kind raw_s = Some Time ->
  strptime_HM raw_s = Returns s ->
  strptime_HM raw_e = Returns e ->
  interpret_template_string fuel (prefixed_template prefix ws raw_s raw_e None)
  = Returns (map (fun k => strip prefix ++ strftime_HM (s + 60 * Z.of_nat k))
                 (seq O (hour_count s e)))
  /\ (hour_count s e <= 24)%nat
  /\ (e < s -> hour_count s e = O).
Proof.
  intros Hf Hok Hk Es Ee.
  destruct (strptime_HM_returns _ _ Es) as [Bs _].
  destruct (strptime_HM_returns _ _ Ee) as [Be _].
  pose proof (hour_count_day s e ltac:(lia) ltac:(lia)) as H24.
  split; [|split; [exact H24|]].
  - unfold interpret_template_string.
    rewrite <- (app_nil_r (prefixed_template _ _ _ _ _)).
    rewrite (by_prefixed fuel _ _ _ _ _ _ Time) by assumption.
    cbn [snd step_suffix]. cbv zeta. rewrite app_nil_r.
    unfold prefixed_time. rewrite Es, Ee. cbn [bind].
    rewrite (time_loop_hours (hour_count s e)); [reflexivity|reflexivity|lia|].
    unfold datetime_max. lia.
  - intros L. unfold hour_count. destruct (Z.leb_spec s e); [lia|reflexivity].
Qed.

Lemma time_range_goes_by_hours_witness :
  (25 <= 25)%nat
  /\ prefixed_ok "T" [] "22:30" "23:45" None = true
  /\ start_kind "22:30" = Some Time
  /\ strptime_HM "22:30" = Returns 1350
  /\ strptime_HM "23:45" = Returns 1425
  /\ interpret_template_string 25 "[T,22:30...23:45]"
     = Returns (strs ["T22:30"; "T23:30"]).
Proof.
  split; [lia|]. split; [reflexivity|]. split; [reflexivity|].
  split; [vm_compute; reflexivity|]. split; [vm_compute; reflexivity|].
  destruct (time_range_goes_by_hours 25 "T" [] "22:30" "23:45" 1350 1425
              ltac:(lia) eq_refl eq_refl
              ltac:(vm_compute; reflexivity) ltac:(vm_compute; reflexivity))
    as [E _].
  etransitivity; [exact E|vm_compute; reflexivity].
Defined.

(** ** The two filter loops *)







Lemma preview_loop_without_condition (ev : evaluator) (ambient : env)
  (names : list str) :
  forall i, preview_loop ev ambient None i names = Returns [].
Proof.
  induction names as [|nm names IH]; intros i; [reflexivity|].
  cbn [preview_loop]. apply IH.
Qed.

(** X9.  A template that holds the letters [if] without a condition after
    them (no [if] followed by a blank and a character) is never previewed:
    the element loop appends nothing, so the handler answers that there are
    no results, or an error, whatever the template expands to. *)
Theorem preview_without_condition_shows_nothing (ev : evaluator) (fuel : nat)
  (ambient : env) (template : str) (preview : list str) :
  contains "if" template = true ->
  re_search if_pattern template = None ->
  preview_template ev fuel ambient template <> Returns (PreviewOf preview).
Proof.
  intros Hc Hs. unfold preview_template, preview_list. rewrite Hc, Hs.
  destruct (interpret_template_string fuel
              (strip (sub if_suffix_pattern [] template))) as [names| |];
    cbn [bind]; try discriminate.
  rewrite preview_loop_without_condition. discriminate.
Qed.

Lemma preview_without_condition_shows_nothing_witness :
  contains "if" "gift-shop" = true
  /\ re_search if_pattern "gift-shop" = None
  /\ interpret_template_string 25 "gift-shop" = Returns (strs ["gift-shop"])
  /\ preview_template fragment_eval 25 [] "gift-shop" = Returns NoResults
  /\ preview_template fragment_eval 25 [] "gift-shop"
     <> Returns (PreviewOf (strs ["gift-shop"])).
Proof.
  split; [reflexivity|]. split; [vm_compute; reflexivity|].
  split; [vm_compute; reflexivity|]. split; [vm_compute; reflexivity|].
  apply (preview_without_condition_shows_nothing fragment_eval 25 [] "gift-shop");
    vm_compute; reflexivity.
Defined.

(** ** The template and condition of [remove_channels] *)

Lemma bind_returns {A : Type} (m : outcome A) : bind m (fun x => Returns x) = m.
Proof. destruct m; reflexivity. Qed.





Lemma star_greedy_none (p : ascii -> bool) (k : cont) (s : str) :
  forall ps cs,
    star_greedy p k ps cs s = None ->
    forall w s2, s = w ++ s2 -> forallb p w = true ->
                 k (MState (ps + length w) s2 cs) = None.
Proof.
  induction s as [|c s IH]; intros ps cs H w s2 E Hw.
  - destruct w; [|discriminate]. simpl in *. subst.
    rewrite Nat.add_0_r. assumption.
  - simpl in H. destruct w as [|c' w]; simpl in E.
    + subst s2. simpl. rewrite Nat.add_0_r.
      destruct (p c); [|assumption].
      destruct (star_greedy p k (S ps) cs s); [discriminate|assumption].
    + injection E as <- ->. simpl in Hw.
      apply andb_true_iff in Hw. destruct Hw as [Hc Hw]. rewrite Hc in H.
      destruct (star_greedy p k (S ps) cs (w ++ s2)) eqn:E'; [discriminate|].
      specialize (IH (S ps) cs E' w s2 eq_refl Hw).
      rewrite <- IH. f_equal. f_equal. simpl. lia.
Qed.

(** A greedy run gives the longest word the continuation accepts. *)
Lemma star_greedy_pick (p : ascii -> bool) (k : cont) (w s : str) ps cs x :
  forallb p w = true ->
  k (MState (ps + length w) s cs) = Some x ->
  (forall w2 s2, w ++ s = w2 ++ s2 -> forallb p w2 = true ->
                 (length w < length w2)%nat ->
                 k (MState (ps + length w2) s2 cs) = None) ->
  star_greedy p k ps cs (w ++ s) = Some x.
Proof.
  intros Hw Hk Hmax.
  destruct (star_greedy p k ps cs (w ++ s)) as [y|] eqn:E.
  - destruct (star_greedy_sound p k _ ps cs y E) as (w' & s' & Es & Hw' & Hk' & Hmax').
    destruct (Nat.lt_trichotomy (length w') (length w)) as [L|[L|L]].
    + rewrite (Hmax' w s eq_refl Hw L) in Hk. discriminate.
    + assert (Ew : w = w').
      { apply (f_equal (firstn (length w))) in Es.
        rewrite firstn_app, Nat.sub_diag, firstn_all in Es. cbn [firstn] in Es.
        rewrite app_nil_r in Es. rewrite Es, <- L, firstn_app, Nat.sub_diag,
          firstn_all. cbn [firstn]. rewrite app_nil_r. reflexivity. }
      subst w'. apply app_inv_head in Es. subst s'. congruence.
    + rewrite (Hmax w' s' Es Hw' L) in Hk'. discriminate.
  - rewrite (star_greedy_none p k _ ps cs E w s eq_refl Hw) in Hk. discriminate.
Qed.

Lemma strip_bracketed (x : str) : strip ("[" ++ x ++ "]") = "[" ++ x ++ "]".
Proof.
  unfold strip, strip_by.
  change (lstrip_by is_space ("[" ++ x ++ "]")) with ("["%char :: x ++ ["]"%char]).
  assert (R : rev ("["%char :: x ++ ["]"%char]) = "]"%char :: rev x ++ ["["%char]).
  { cbn [rev]. rewrite rev_app_distr. reflexivity. }
  rewrite R.
  change (lstrip_by is_space ("]"%char :: rev x ++ ["["%char]))
    with ("]"%char :: rev x ++ ["["%char]).
  rewrite <- R. apply rev_involutive.
Qed.

(** The pattern of line 234 on a bracketed text without line break: group 1
    is everything between the first and the last character. *)
Lemma bracketed_pattern_match (inner : str) :
  forallb is_dot inner = true ->
  re_match bracketed_pattern ("[" ++ inner ++ "]")
  = Some (MState (S (S (length inner))) [] [(1%nat, inner)]).
Proof.
  intros Hd. unfold re_match, bracketed_pattern. rewrite rmatch_Cat_cons.
  cbn [rmatch pos Nat.eqb].
  change (step_char (Ascii.eqb "[") ?k ?st) with (rmatch (Lit "[") k st).
  rewrite rmatch_Cat_cons. cbn [app list_ascii_of_string].
  rewrite rmatch_Lit_hit, rmatch_Cat_cons.
  change (rmatch (Grp 1 (Star is_dot)) ?k (MState 1 ?s []))
    with (star_greedy is_dot (fun st' => k (close_group 1 (MState 1 s []) st'))
            1 [] s).
  apply star_greedy_pick; [exact Hd| |].
  - unfold close_group. cbn [pos rest caps].
    rewrite firstn_exact by reflexivity.
    rewrite rmatch_Cat_cons, rmatch_Lit_hit, rmatch_Cat_cons.
    cbn [rmatch rest]. rewrite rmatch_Cat_nil. reflexivity.
  - intros w2 s2 E Hw L. apply (f_equal (@length ascii)) in E.
    rewrite !length_app in E. cbn [length] in E.
    destruct s2 as [|c s2]; [|cbn [length] in E; lia].
    unfold close_group. cbn [pos rest caps]. rewrite rmatch_Cat_cons.
    reflexivity.
Qed.

Lemma startswith_long (sep s t : str) :
  (length sep <= length s)%nat -> startswith sep (s ++ t) = startswith sep s.
Proof.
  revert s. induction sep as [|a sep IH]; intros s L; [reflexivity|].
  destruct s as [|b s]; [cbn [length] in L; lia|].
  cbn [app startswith]. rewrite IH; [reflexivity|cbn [length] in L; lia].
Qed.

(** The separator of line 237 has no border: an occurrence cannot start
    inside a text and end in the separator after it. *)
Lemma separator_overlap (s t : str) :
  startswith ", if " s = false ->
  s <> [] ->
  startswith ", if " (s ++ ", if " ++ t) = false.
Proof.
  intros H Hne.
  destruct (le_lt_dec (length (list_ascii_of_string ", if ")) (length s)) as [L|L].
  - rewrite startswith_long by exact L. exact H.
  - clear H. cbn [length list_ascii_of_string] in L.
    destruct s as [|c0 [|c1 [|c2 [|c3 [|c4 s]]]]];
      [contradiction| | | | |cbn [length] in L; lia];
      cbn [app list_ascii_of_string startswith];
      repeat match goal with
             | |- context [Ascii.eqb ?a ?b] =>
                 is_var b; destruct (Ascii.eqb a b)
             end; reflexivity.
Qed.

Lemma find_separator (range cond : str) :
  find ", if " range = None ->
  find ", if " (range ++ ", if " ++ cond) = Some (length range).
Proof.
  induction range as [|c range IH]; intros H; [reflexivity|].
  cbn [find] in H.
  destruct (startswith ", if " (c :: range)) eqn:E; [discriminate|].
  destruct (find ", if " range) eqn:F; [discriminate|].
  change ((c :: range) ++ ", if " ++ cond)
    with (c :: (range ++ ", if " ++ cond)).
  cbn [find].
  change (c :: (range ++ ", if " ++ cond))
    with ((c :: range) ++ ", if " ++ cond).
  rewrite (separator_overlap (c :: range) cond E) by discriminate.
  rewrite IH by reflexivity. reflexivity.
Qed.

(** X11.  A bracketed template with a condition: the text in the brackets is
    cut at the first [, if ]; what is before it, blanks removed, is put back
    in brackets and expanded, what is after it, blanks removed, is the
    condition.  The text in the brackets has no line break. *)
Theorem bracketed_template_is_cut_at_first_if (range cond : str) :
  forallb is_dot (range ++ ", if " ++ cond) = true ->
  find ", if " range = None ->
  split_condition ("[" ++ (range ++ ", if " ++ cond) ++ "]")
  = ("[" ++ strip range ++ "]", Some (strip cond)).
Proof.
  intros Hd Hf. unfold split_condition.
  rewrite strip_bracketed, (bracketed_pattern_match _ Hd).
  unfold group_str, group. cbn [caps lookup Nat.eqb].
  unfold split1. rewrite (find_separator range cond Hf).
  rewrite firstn_app, Nat.sub_diag, firstn_all. cbn [firstn].
  rewrite app_nil_r.
  replace (skipn (length range + length (list_ascii_of_string ", if "))
             (range ++ ", if " ++ cond)) with cond; [reflexivity|].
  rewrite skipn_app, skipn_all2 by lia.
  replace (length range + length (list_ascii_of_string ", if ") - length range)%nat
    with 5%nat by (cbn [length list_ascii_of_string]; lia).
  reflexivity.
Qed.

Lemma bracketed_template_is_cut_at_first_if_witness :
  forallb is_dot ("a, b ,c" ++ ", if " ++ "i > 1, if x ") = true
  /\ find ", if " "a, b ,c" = None
  /\ split_condition "[a, b ,c, if i > 1, if x ]"
     = (list_ascii_of_string "[a, b ,c]",
        Some (list_ascii_of_string "i > 1, if x")).
Proof.
  split; [reflexivity|]. split; [reflexivity|].
  exact (bracketed_template_is_cut_at_first_if "a, b ,c" "i > 1, if x "
           eq_refl eq_refl).
Defined.

(** ** The targets of [clone_category] *)

Lemma lacks_head (c x : ascii) (s : str) :
  lacks c (x :: s) = true -> c <> x /\ lacks c s = true.
Proof.
  unfold lacks. cbn [forallb]. intros H. apply andb_true_iff in H.
  destruct H as [Hx Hs]. split; [|exact Hs].
  intros <-. rewrite Ascii.eqb_refl in Hx. discriminate.
Qed.

Lemma bracket_pattern_miss (s : str) (ps : nat) :
  match s with [] => True | c :: _ => "["%char <> c end ->
  rmatch bracket_pattern Some (MState ps s []) = None.
Proof.
  intros M. unfold bracket_pattern. rewrite rmatch_Cat_cons.
  apply rmatch_Lit_miss. exact M.
Qed.

Lemma search_bracket_skip (pre s : str) :
  forall ps,
    lacks "[" pre = true ->
    search_from bracket_pattern ps (pre ++ s)
    = search_from bracket_pattern (ps + length pre) s.
Proof.
  induction pre as [|c pre IH]; intros ps Hl; cbn [length app].
  - rewrite Nat.add_0_r. reflexivity.
  - destruct (lacks_head _ _ _ Hl) as [Hc Hl'].
    cbn [search_from].
    rewrite (bracket_pattern_miss (c :: pre ++ s) ps Hc).
    rewrite IH by assumption. f_equal. lia.
Qed.

Lemma bracket_pattern_match (c : ascii) (body suffix : str) (ps : nat) :
  lacks "]" (c :: body) = true ->
  rmatch bracket_pattern Some
    (MState ps ("["%char :: (c :: body) ++ "]"%char :: suffix) [])
  = Some (MState (ps + (length (c :: body) + 2)) suffix []).
Proof.
  intros H. unfold lacks in H. cbn [forallb] in H.
  apply andb_true_iff in H. destruct H as [Hc Hb].
  unfold bracket_pattern.
  rewrite rmatch_Cat_cons, rmatch_Lit_hit, rmatch_Cat_cons.
  apply rmatch_Plus_run; [exact Hc|exact Hb|reflexivity|].
  rewrite rmatch_Cat_cons, rmatch_Lit_hit, rmatch_Cat_nil.
  f_equal. f_equal. lia.
Qed.

(** X12.  A target of [clone_category] with a bracketed part: the brackets
    and what they hold are expanded as a template, and every base is put
    between the text before the opening bracket and the text after the
    closing one.  The bracketed part is the first one: nothing before it
    holds an opening bracket, and it holds one character at least, none a
    closing bracket. *)
Theorem clone_puts_each_base_between_prefix_and_suffix (fuel : nat)
  (prefix : str) (c : ascii) (body suffix : str) :
  lacks "[" prefix = true ->
  lacks "]" (c :: body) = true ->
  clone_targets fuel (prefix ++ "[" ++ (c :: body) ++ "]" ++ suffix)
  = (bases <- interpret_template_string fuel ("[" ++ (c :: body) ++ "]") ;;
     Returns (map (fun b => prefix ++ b ++ suffix) bases)).
Proof.
  intros Hp Hb. unfold clone_targets, re_search.
  rewrite search_bracket_skip by exact Hp.
  cbn [app list_ascii_of_string]. cbn [search_from].
  rewrite (bracket_pattern_match c body suffix _ Hb).
  cbn [pos rest Nat.add].
  rewrite firstn_app, Nat.sub_diag, firstn_all. cbn [firstn].
  rewrite app_nil_r.
  rewrite skipn_app, skipn_all, Nat.sub_diag. cbn [skipn app].
  replace (length prefix + (length (c :: body) + 2) - length prefix)%nat
    with (length ("["%char :: (c :: body) ++ ["]"%char]) + 0)%nat
    by (cbn [length app]; rewrite length_app; cbn [length]; lia).
  change ("["%char :: c :: body ++ "]"%char :: suffix)
    with (("["%char :: c :: body) ++ ["]"%char] ++ suffix).
  rewrite (app_assoc ("["%char :: c :: body) ["]"%char] suffix).
  change (("["%char :: c :: body) ++ ["]"%char])
    with ("["%char :: (c :: body) ++ ["]"%char]).
  rewrite firstn_app_2. cbn [firstn]. rewrite app_nil_r. reflexivity.
Qed.

Lemma clone_puts_each_base_between_prefix_and_suffix_witness :
  lacks "[" "Year " = true
  /\ lacks "]" "3...5" = true
  /\ clone_targets 0 "Year [3...5] (new)"
     = Returns (strs ["Year 3 (new)"; "Year 4 (new)"; "Year 5 (new)"]).
Proof.
  split; [reflexivity|]. split; [reflexivity|].
  etransitivity;
    [exact (clone_puts_each_base_between_prefix_and_suffix 0 "Year " "3"
              "...5" " (new)" eq_refl eq_refl)
    |vm_compute; reflexivity].
Defined.

(** X13.  A target of [clone_category] without an opening bracket is one
    category name, taken as it is: dots and braces in it are not expanded. *)
Theorem clone_target_without_bracket_is_one_name (fuel : nat) (target : str) :
  lacks "[" target = true -> clone_targets fuel target = Returns [target].
Proof.
  intros H. unfold clone_targets, re_search.
  rewrite <- (app_nil_r target) at 1.
  rewrite search_bracket_skip by exact H. cbn [search_from].
  rewrite bracket_pattern_miss by exact I. reflexivity.
Qed.

Lemma clone_target_without_bracket_is_one_name_witness :
  lacks "[" "Wing{A...C}" = true
  /\ clone_targets 0 "Wing{A...C}" = Returns (strs ["Wing{A...C}"]).
Proof.
  split; [reflexivity|].
  exact (clone_target_without_bracket_is_one_name 0 "Wing{A...C}" eq_refl).
Defined.

(** ** [parse_permissions] *)

Lemma role_by_name_known (name : str) (rs : list (Z * str)) (o : target) :
  role_by_name name rs = Some o -> exists id, o = Role id /\ In id (map fst rs).
Proof.
  induction rs as [|[id n] rs IH]; cbn [role_by_name]; [discriminate|].
  destruct (eqb_str n name).
  - intros [= <-]. exists id. split; [reflexivity|left; reflexivity].
  - intros H. destruct (IH H) as (i & -> & Hi). exists i.
    split; [reflexivity|right; exact Hi].
Qed.

Lemma role_by_id_known (id : Z) (rs : list (Z * str)) (o : target) :
  role_by_id id rs = Some o -> exists i, o = Role i /\ In i (map fst rs).
Proof.
  induction rs as [|[i n] rs IH]; cbn [role_by_id]; [discriminate|].
  destruct (i =? id).
  - intros [= <-]. exists i. split; [reflexivity|left; reflexivity].
  - intros H. destruct (IH H) as (j & -> & Hj). exists j.
    split; [reflexivity|right; exact Hj].
Qed.

Lemma map_get_known (key : str) (m : list (string * string)) (attr : string) :
  map_get key m = Some attr -> In attr (map snd m).
Proof.
  induction m as [|[k v] m IH]; cbn [map_get]; [discriminate|].
  destruct (eqb_str key (list_ascii_of_string k)).
  - intros [= <-]. left. reflexivity.
  - intros H. right. exact (IH H).
Qed.

Lemma resolve_target_known (g : guild) (targ : str) (o : target) :
  resolve_target g targ = Returns (Some o) -> known_target g o.
Proof.
  unfold resolve_target. destruct (startswith "@" targ).
  - destruct (role_by_name (tl targ) (roles g)) as [r|] eqn:E.
    + intros [= <-]. destruct (role_by_name_known _ _ _ E) as (i & -> & Hi).
      exact Hi.
    + destruct (isdigit (tl targ)); [|discriminate].
      destruct (py_int (tl targ)) as [id| |]; cbn [bind]; try discriminate.
      intros [= H]. destruct (role_by_id_known _ _ _ H) as (i & -> & Hi).
      exact Hi.
  - destruct (isdigit targ); [|discriminate].
    destruct (py_int targ) as [id| |]; try discriminate.
    destruct (fetch_member g id) eqn:F; [|discriminate].
    intros [= <-]. exact F.
Qed.

Lemma parse_entry_known (g : guild) (entry : str) (o : target) (attr : string) :
  parse_entry g entry = Returns (Some (o, attr)) ->
  known_target g o /\ known_attribute attr.
Proof.
  unfold parse_entry. destruct (negb (contains ":" entry)); [discriminate|].
  destruct (split1 ":" entry) as [|target_raw [|key_raw [|x l]]];
    try discriminate.
  destruct (map_get (lower (strip key_raw)) PERMISSION_MAP) as [a|] eqn:M;
    [|discriminate].
  destruct (resolve_target g (strip target_raw)) as [[t|]| |] eqn:R;
    cbn [bind]; try discriminate.
  intros [= <- <-]. split.
  - exact (resolve_target_known _ _ _ R).
  - exact (map_get_known _ _ _ M).
Qed.

Lemma eqb_target_eq (a b : target) : eqb_target a b = true -> a = b.
Proof.
  destruct a, b; cbn [eqb_target]; try discriminate;
    intros H; apply Z.eqb_eq in H; congruence.
Qed.

Lemma eqb_target_refl (a : target) : eqb_target a a = true.
Proof. destruct a; cbn [eqb_target]; apply Z.eqb_refl. Qed.

Lemma dict_set_Forall (P : target * string -> Prop) (o : target)
  (attr : string) (d : list (target * string)) :
  P (o, attr) -> Forall P d -> Forall P (dict_set o attr d).
Proof.
  intros Hp. induction d as [|[k v] d IH]; intros Hd; cbn [dict_set].
  - constructor; [exact Hp|constructor].
  - inversion Hd as [|x l Hx Hl]; subst.
    destruct (eqb_target k o) eqn:E.
    + apply eqb_target_eq in E. subst k. constructor; assumption.
    + constructor; [exact Hx|exact (IH Hl)].
Qed.

Lemma parse_entries_known (g : guild) (entries : list str) :
  forall d0 d,
    Forall (fun p => known_target g (fst p) /\ known_attribute (snd p)) d0 ->
    parse_entries g entries d0 = Returns d ->
    Forall (fun p => known_target g (fst p) /\ known_attribute (snd p)) d.
Proof.
  induction entries as [|e entries IH]; intros d0 d H0; cbn [parse_entries].
  - intros [= <-]. exact H0.
  - destruct (parse_entry g e) as [[[o attr]|]| |] eqn:E; cbn [bind];
      try discriminate.
    + apply IH. apply dict_set_Forall; [|exact H0].
      exact (parse_entry_known _ _ _ _ E).
    + apply IH. exact H0.
Qed.

(** X14.  Whatever the permissions text, the overwrites [parse_permissions]
    returns are given to objects of the guild only, a role of [guild.roles]
    or a member that [fetch_member] finds, and each allows one of the seven
    attributes of [PERMISSION_MAP]. *)
Theorem overwrites_name_guild_objects_only (g : guild) (perm_string : str)
  (overwrites : list (target * string)) :
  parse_permissions g perm_string = Returns overwrites ->
  Forall (fun p => known_target g (fst p) /\ known_attribute (snd p))
         overwrites.
Proof.
  unfold parse_permissions. apply parse_entries_known. constructor.
Qed.

Lemma overwrites_name_guild_objects_only_witness :
  parse_permissions two_role_guild
    "@mods:view, 42: Send ,@ghost:view, 43:speak, @9:fly,x"
  = Returns [(Role 7, "view_channel"%string); (Member 42, "send_messages"%string)]
  /\ Forall (fun p => known_target two_role_guild (fst p)
                      /\ known_attribute (snd p))
       [(Role 7, "view_channel"%string); (Member 42, "send_messages"%string)].
Proof.
  assert (E : parse_permissions two_role_guild
                "@mods:view, 42: Send ,@ghost:view, 43:speak, @9:fly,x"
              = Returns [(Role 7, "view_channel"%string);
                         (Member 42, "send_messages"%string)])
    by (vm_compute; reflexivity).
  split; [exact E|].
  exact (overwrites_name_guild_objects_only two_role_guild _ _ E).
Defined.

Lemma parse_entries_app (g : guild) (l1 l2 : list str) :
  forall d0,
    parse_entries g (l1 ++ l2) d0
    = (d1 <- parse_entries g l1 d0 ;; parse_entries g l2 d1).
Proof.
  induction l1 as [|e l1 IH]; intros d0; [reflexivity|].
  cbn [app parse_entries].
  destruct (parse_entry g e) as [[[o attr]|]| |]; cbn [bind];
    try reflexivity; apply IH.
Qed.

Lemma split_go_last (s e : str) :
  forall acc,
    lacks "," e = true ->
    split_go "," acc O (s ++ "," ++ e) = split_go "," acc O s ++ [e].
Proof.
  induction s as [|c s IH]; intros acc H.
  - rewrite (split_go_item [] e acc eq_refl). cbn [split_go app].
    rewrite (split_go_plain e [] H). rewrite app_nil_r. reflexivity.
  - cbn [app split_go].
    change (startswith "," (c :: s ++ "," ++ e)) with (Ascii.eqb "," c && true).
    change (startswith "," (c :: s)) with (Ascii.eqb "," c && true).
    destruct (Ascii.eqb "," c && true).
    + cbn [length list_ascii_of_string Nat.sub app]. rewrite IH by exact H.
      reflexivity.
    + apply IH. exact H.
Qed.

Lemma dict_get_set (o : target) (attr : string) (d : list (target * string)) :
  dict_get o (dict_set o attr d) = Some attr.
Proof.
  induction d as [|[k v] d IH]; cbn [dict_set dict_get].
  - rewrite eqb_target_refl. reflexivity.
  - destruct (eqb_target k o) eqn:E; cbn [dict_get]; rewrite E;
      [reflexivity|exact IH].
Qed.

Lemma dict_get_set_other (o o' : target) (attr : string)
  (d : list (target * string)) :
  o' <> o -> dict_get o' (dict_set o attr d) = dict_get o' d.
Proof.
  intros N. induction d as [|[k v] d IH]; cbn [dict_set dict_get].
  - destruct (eqb_target o o') eqn:E; [|reflexivity].
    apply eqb_target_eq in E. congruence.
  - destruct (eqb_target k o) eqn:E; cbn [dict_get].
    + apply eqb_target_eq in E. subst k.
      destruct (eqb_target o o') eqn:E'; [|reflexivity].
      apply eqb_target_eq in E'. congruence.
    + rewrite IH. reflexivity.
Qed.

(** X15.  A later entry replaces an earlier one for the same object: adding
    an entry that names the object [o] to a permissions text leaves [o] with
    the one attribute of that entry, whatever the text gave it before, and
    leaves the other objects as they were. *)
Theorem later_entry_replaces_earlier (g : guild) (perm_string entry : str)
  (overwrites : list (target * string)) (o : target) (attr : string) :
  lacks "," entry = true ->
  parse_permissions g perm_string = Returns overwrites ->
  parse_permissions g entry = Returns [(o, attr)] ->
  parse_permissions g (perm_string ++ "," ++ entry)
  = Returns (dict_set o attr overwrites)
  /\ dict_get o (dict_set o attr overwrites) = Some attr
  /\ forall o', o' <> o ->
       dict_get o' (dict_set o attr overwrites) = dict_get o' overwrites.
Proof.
  intros Hl Hs He. split; [|split].
  - unfold parse_permissions, split in *.
    rewrite (split_go_plain entry [] Hl) in He. cbn [rev app] in He.
    rewrite (split_go_last perm_string entry [] Hl), parse_entries_app, Hs.
    cbn [bind]. cbn [parse_entries] in *.
    destruct (parse_entry g entry) as [[[o1 a1]|]| |]; cbn [bind] in *;
      try discriminate.
    injection He as <- <-. reflexivity.
  - apply dict_get_set.
  - intros o' N. apply dict_get_set_other. exact N.
Qed.

Lemma later_entry_replaces_earlier_witness :
  lacks "," " @7 : SEND" = true
  /\ parse_permissions two_role_guild "@mods:view,@staff:read"
     = Returns [(Role 7, "view_channel"%string);
                (Role 9, "read_message_history"%string)]
  /\ parse_permissions two_role_guild " @7 : SEND"
     = Returns [(Role 7, "send_messages"%string)]
  /\ parse_permissions two_role_guild "@mods:view,@staff:read, @7 : SEND"
     = Returns [(Role 7, "send_messages"%string);
                (Role 9, "read_message_history"%string)].
Proof.
  assert (A : parse_permissions two_role_guild "@mods:view,@staff:read"
              = Returns [(Role 7, "view_channel"%string);
                         (Role 9, "read_message_history"%string)])
    by (vm_compute; reflexivity).
  assert (B : parse_permissions two_role_guild " @7 : SEND"
              = Returns [(Role 7, "send_messages"%string)])
    by (vm_compute; reflexivity).
  split; [reflexivity|]. split; [exact A|]. split; [exact B|].
  destruct (later_entry_replaces_earlier two_role_guild "@mods:view,@staff:read"
              " @7 : SEND" _ (Role 7) "send_messages" eq_refl A B) as [E _].
  etransitivity; [exact E|vm_compute; reflexivity].
Defined.

(** ** A role given by a number that [int] refuses *)

Lemma isdigit_char_plain (c : ascii) :
  isdigit_char c = true ->
  negb (Ascii.eqb c ",") = true /\ negb (Ascii.eqb c ":") = true
  /\ negb (is_space c) = true /\ Ascii.eqb "@" c = false.
Proof. each_char c; repeat split; reflexivity. Qed.

Lemma find_char_first (c : ascii) (pre t : str) :
  lacks c pre = true -> find [c] (pre ++ c :: t) = Some (length pre).
Proof.
  induction pre as [|x pre IH]; intros H.
  - cbn [app find startswith]. rewrite Ascii.eqb_refl. reflexivity.
  - destruct (lacks_head _ _ _ H) as [N H'].
    cbn [app find startswith length].
    destruct (Ascii.eqb_spec c x) as [E|_]; [contradiction|].
    cbn [andb]. rewrite IH by exact H'. reflexivity.
Qed.

Lemma split1_colon (pre t : str) :
  lacks ":" pre = true ->
  contains ":" (pre ++ ":" ++ t) = true
  /\ split1 ":" (pre ++ ":" ++ t) = [pre; t].
Proof.
  intros H. unfold contains, split1.
  change (list_ascii_of_string ":") with [":"%char].
  cbn [app].
  rewrite (find_char_first ":" pre t H). split; [reflexivity|].
  rewrite firstn_app, Nat.sub_diag, firstn_all. cbn [firstn].
  rewrite app_nil_r, skipn_app, skipn_all2 by (cbn [length]; lia).
  replace (length pre + length [":"%char] - length pre)%nat with 1%nat
    by (cbn [length]; lia).
  reflexivity.
Qed.

(** X16.  A role is looked up by number without protection: for an entry
    [@name:key] with a key of the table, where no role is called [name] and
    [name] passes [isdigit] but [int] refuses it (a superscript digit),
    [parse_permissions] raises [ValueError].  The same number given as a
    member, without the [@], is an entry that is skipped: there the call is
    inside a [try]. *)
Theorem role_number_failure_escapes (g : guild) (name key : str)
  (attr : string) :
  isdigit name = true ->
  py_int name = Raises ValueError ->
  role_by_name name (roles g) = None ->
  map_get (lower (strip key)) PERMISSION_MAP = Some attr ->
  lacks "," key = true ->
  parse_permissions g ("@" ++ name ++ ":" ++ key) = Raises ValueError
  /\ parse_permissions g (name ++ ":" ++ key) = Returns [].
Proof.
  intros Hd Hi Hr Hk Hc.
  assert (Hall : forallb isdigit_char name = true
                 /\ exists c name', name = c :: name').
  { destruct name as [|c name']; [discriminate|]. split; [exact Hd|eauto]. }
  destruct Hall as [Hall (c & name' & En)].
  assert (P : forall q, (forall x, isdigit_char x = true -> q x = true) ->
                        forallb q name = true).
  { intros q Hq. apply (forallb_imp isdigit_char q); assumption. }
  assert (Ncomma : lacks "," name = true)
    by (apply P; intros x Hx; apply (isdigit_char_plain x Hx)).
  assert (Ncolon : lacks ":" name = true)
    by (apply P; intros x Hx; apply (isdigit_char_plain x Hx)).
  assert (Nspace : forallb (fun x => negb (is_space x)) name = true)
    by (apply P; intros x Hx; apply (isdigit_char_plain x Hx)).
  assert (Nat : startswith "@" name = false).
  { rewrite En in Hall |- *. cbn [forallb] in Hall.
    apply andb_true_iff in Hall. destruct Hall as [Hx _].
    cbn [startswith list_ascii_of_string].
    destruct (isdigit_char_plain c Hx) as (_ & _ & _ & ->). reflexivity. }
  split.
  - unfold parse_permissions, split.
    rewrite split_go_plain
      by (rewrite !lacks_app, Ncomma, Hc; reflexivity).
    cbn [rev app parse_entries]. unfold parse_entry.
    change ("@" ++ name ++ ":" ++ key)
      with (("@"%char :: name) ++ ":" ++ key).
    destruct (split1_colon ("@"%char :: name) key) as [-> ->].
    { unfold lacks. cbn [forallb]. exact Ncolon. }
    cbn [negb]. rewrite Hk.
    unfold strip. rewrite strip_by_id by (cbn [forallb]; exact Nspace).
    unfold resolve_target. cbn [startswith list_ascii_of_string tl].
    rewrite Ascii.eqb_refl. cbn [andb]. rewrite Hr, Hd, Hi. reflexivity.
  - unfold parse_permissions, split.
    rewrite split_go_plain
      by (rewrite !lacks_app, Ncomma, Hc; reflexivity).
    cbn [rev app parse_entries]. unfold parse_entry.
    destruct (split1_colon name key Ncolon) as [-> ->].
    cbn [negb]. rewrite Hk.
    unfold strip. rewrite strip_by_id by exact Nspace.
    unfold resolve_target. rewrite Nat, Hd, Hi. reflexivity.
Qed.

Lemma role_number_failure_escapes_witness :
  isdigit [ascii_of_nat 178] = true
  /\ py_int [ascii_of_nat 178] = Raises ValueError
  /\ parse_permissions two_role_guild ("@" ++ [ascii_of_nat 178] ++ ":" ++ "view")
     = Raises ValueError
  /\ parse_permissions two_role_guild ([ascii_of_nat 178] ++ ":" ++ "view")
     = Returns [].
Proof.
  split; [reflexivity|]. split; [vm_compute; reflexivity|].
  exact (role_number_failure_escapes two_role_guild [ascii_of_nat 178] "view"
           "view_channel" eq_refl ltac:(vm_compute; reflexivity) eq_refl
           eq_refl eq_refl).
Defined.

(** ** Letter ranges, lines 68-72 *)

Ltac below H :=
  match type of H with
  | (_ < O)%nat => exfalso; inversion H
  | (?i < S _)%nat =>
      destruct i;
      [clear H|apply (proj2 (Nat.succ_lt_mono _ _)) in H; below H]
  end.

Lemma letter_bound (upper : bool) (i : nat) :
  (i < 26)%nat ->
  is_bound [letter upper i] = true /\ start_kind [letter upper i] = Some Alpha.
Proof.
  intros H. destruct upper; below H; split; vm_compute; reflexivity.
Qed.

Lemma letter_segment (p : str) (upper : bool) (i j : nat) :
  (i < 26)%nat -> (j < 26)%nat ->
  prefixed_alpha p [letter upper i] [letter upper j] 1
  = Returns (map (fun k => p ++ [letter upper k]) (seq i (j + 1 - i))).
Proof.
  intros Hi Hj. destruct upper; below Hi; below Hj;
    vm_compute; reflexivity.
Qed.

Lemma letter_other_case (p : str) (upper : bool) (i j : nat) :
  (i < 26)%nat -> (j < 26)%nat ->
  prefixed_alpha p [letter upper i] [letter (negb upper) j] 1
  = Raises ValueError.
Proof.
  intros Hi Hj. destruct upper; below Hi; below Hj;
    vm_compute; reflexivity.
Qed.

Lemma letter_range_ok (prefix ws : str) (upper upper' : bool) (i j : nat) :
  is_prefix prefix = true -> forallb is_space ws = true ->
  (i < 26)%nat -> (j < 26)%nat ->
  prefixed_ok prefix ws [letter upper i] [letter upper' j] None = true.
Proof.
  intros Hp Hw Hi Hj. unfold prefixed_ok.
  destruct (letter_bound upper i Hi) as [-> _].
  destruct (letter_bound upper' j Hj) as [-> _].
  rewrite Hp, Hw. reflexivity.
Qed.

(** X17.  A letter range: with a prefix and two letters of one case, the
    call gives the prefix, blanks removed, followed by each letter from the
    first to the second, both included, in alphabet order; nothing when the
    second letter comes before the first.  Text after the closing bracket
    does not count. *)
Theorem letter_range_runs_through_the_alphabet (fuel : nat)
  (prefix ws tail : str) (upper : bool) (i j : nat) :
  is_prefix prefix = true ->
  forallb is_space ws = true ->
  (i < 26)%nat -> (j < 26)%nat ->
  interpret_template_string_by fuel
    (prefixed_template prefix ws [letter upper i] [letter upper j] None ++ tail)
  = (PrefixedRange,
     Returns (map (fun k => strip prefix ++ [letter upper k])
                  (seq i (j + 1 - i)))).
Proof.
  intros Hp Hw Hi Hj.
  rewrite (by_prefixed fuel prefix ws [letter upper i] [letter upper j] None
             tail Alpha (letter_range_ok prefix ws upper upper i j Hp Hw Hi Hj)
             (proj2 (letter_bound upper i Hi))).
  cbn [step_suffix]. rewrite app_nil_r.
  rewrite letter_segment by assumption. reflexivity.
Qed.

Lemma letter_range_runs_through_the_alphabet_witness :
  interpret_template_string_by 0 "[ Wing , w...z] east"
  = (PrefixedRange, Returns (strs ["Wingw"; "Wingx"; "Wingy"; "Wingz"]))
  /\ interpret_template_string_by 0 "[ Wing , z...w] east"
     = (PrefixedRange, Returns []).
Proof.
  split.
  - exact (letter_range_runs_through_the_alphabet 0 " Wing " " " " east"
             false 22 25 eq_refl eq_refl ltac:(lia) ltac:(lia)).
  - exact (letter_range_runs_through_the_alphabet 0 " Wing " " " " east"
             false 25 22 eq_refl eq_refl ltac:(lia) ltac:(lia)).
Defined.

(** X18.  A letter range whose two letters differ in case stops the call:
    the second letter is looked up in the alphabet of the first one, where
    it is not, and [ValueError] is raised. *)
Theorem letter_range_of_two_cases_is_rejected (fuel : nat)
  (prefix ws tail : str) (upper : bool) (i j : nat) :
  is_prefix prefix = true ->
  forallb is_space ws = true ->
  (i < 26)%nat -> (j < 26)%nat ->
  interpret_template_string_by fuel
    (prefixed_template prefix ws [letter upper i] [letter (negb upper) j] None
       ++ tail)
  = (PrefixedRange, Raises ValueError).
Proof.
  intros Hp Hw Hi Hj.
  rewrite (by_prefixed fuel prefix ws [letter upper i] [letter (negb upper) j]
             None tail Alpha
             (letter_range_ok prefix ws upper (negb upper) i j Hp Hw Hi Hj)
             (proj2 (letter_bound upper i Hi))).
  cbn [step_suffix]. rewrite app_nil_r.
  rewrite letter_other_case by assumption. reflexivity.
Qed.

Lemma letter_range_of_two_cases_is_rejected_witness :
  interpret_template_string_by 0 "[Wing,A...c]"
  = (PrefixedRange, Raises ValueError).
Proof.
  exact (letter_range_of_two_cases_is_rejected 0 "Wing" [] [] true 0 2
           eq_refl eq_refl ltac:(lia) ltac:(lia)).
Defined.

(** ** The filter of [preview_template] when no evaluation fails *)


